(** * clyent: service descriptors and the API-client factory

    A shallow embedding of [ApiService] and [createApiClient] and the
    properties of configuration merging, interceptor registration, client
    composition and failure propagation.

    Modelling conventions.
    - A JavaScript object used as a string-keyed record is a finite map
      [gmap string Value]; the spread [{...a, ...b}] copies the properties
      of [b] over those of [a].
    - An optional property ([x?: T]) is an [option].
    - A function value (an interceptor hook, an endpoint) is an opaque
      reference [Fn]: the factory never calls one.  The only caller-supplied
      function the factory calls is the endpoint factory of a service, which
      is a Rocq function that either returns the endpoint object or throws.
    - An expression completes normally with a value or abruptly with a
      thrown exception: [completion].
    - The object [services] is given by the sequence of (key, value) pairs
      that [for (const key in services)] enumerates.
    - A configuration object, an endpoint object and a service client are
      given by their own properties.  The client object is assigned to by
      computed name, so its prototype is modelled too: see [ApiClient].
    - Two handles are told apart by what they hold, object identity is not
      modelled.
    - The endpoint factory is a function of the handle it is given; what
      caller-supplied code may do to that handle afterwards is not part of
      the factory and not modelled. *)

From stdpp Require Import base option strings list gmap fin_maps.

(** ** Values *)

(** A function object.  Interceptor hooks and endpoint functions are stored
    and handed on, never called, so a reference is all that is needed. *)
Inductive Fn := FnRef (label : string).

(** One direction of [Interceptors]: [{ onFulfilled?, onRejected? }]. *)
Module Hooks.
Record t := mk { onFulfilled : option Fn; onRejected : option Fn }.
End Hooks.

(** [interface Interceptors { request?: {...}; response?: {...} }]. *)
Module Interceptors.
Record t := mk { request : option Hooks.t; response : option Hooks.t }.
End Interceptors.

(** ** The transport library

    axios is an external collaborator of this repository.  What follows is
    its contract as far as the factory relies on it: a handle is created
    from a configuration object, and carries one interceptor chain per
    direction, to which [use] appends. *)

(** Modelled from the spec: an entry of an interceptor chain of the
    transport library, the pair of hooks that one [use] call was given. *)
Record Handler := mkHandler { fulfilled : option Fn; rejected : option Fn }.

(** Modelled from the spec: the interceptor chain of one direction of a
    handle of the transport library, in registration order. *)
Definition InterceptorManager := list Handler.

(** Modelled from the spec: the registration method [use(onFulfilled,
    onRejected)] of the transport library.  It appends one handler to the
    chain and accepts either hook without the other. *)
Definition InterceptorManager_use
    (onFulfilled onRejected : option Fn) (m : InterceptorManager)
  : InterceptorManager :=
  m ++ [mkHandler onFulfilled onRejected].

(** Modelled from the spec: a handle of the transport library, with the
    configuration it was created with and its two chains. *)
Record AxiosInstanceOf (C : Type) := mkInstance {
  create_config : C;
  interceptors_request : InterceptorManager;
  interceptors_response : InterceptorManager
}.
Arguments mkInstance {C} _ _ _.
Arguments create_config {C} _.
Arguments interceptors_request {C} _.
Arguments interceptors_response {C} _.

(** Values that a property of a configuration object or of a service client
    can hold. *)
#[warnings="-register-all"] Inductive Value :=
| VUndefined
| VNull
| VBool (b : bool)
| VNum (n : Z)
| VStr (s : string)
| VFun (f : Fn)
| VObj (o : gmap string Value)
| VInterceptors (i : Interceptors.t)
| VInstance (a : AxiosInstanceOf (gmap string Value)).

Abbreviation Obj := (gmap string Value).
Abbreviation AxiosRequestConfig := (gmap string Value).
Abbreviation AxiosInstance := (AxiosInstanceOf (gmap string Value)).

(** [{...target, ...source}]: every own property of [source] is copied onto
    [target], replacing a property of the same name. *)
Definition spread (target source : Obj) : Obj := source ∪ target.

(** Modelled from the spec: the handle-creation function [axios.create] of
    the transport library, which gives a new handle with empty chains. *)
Definition axios_create (config : AxiosRequestConfig) : AxiosInstance :=
  mkInstance config [] [].

(** Modelled from the spec: [instance.interceptors.request.use(onFulfilled,
    onRejected)] on a handle of the transport library. *)
Definition request_use (onFulfilled onRejected : option Fn)
    (instance : AxiosInstance) : AxiosInstance :=
  mkInstance (create_config instance)
    (InterceptorManager_use onFulfilled onRejected (interceptors_request instance))
    (interceptors_response instance).

(** Modelled from the spec: [instance.interceptors.response.use(onFulfilled,
    onRejected)] on a handle of the transport library. *)
Definition response_use (onFulfilled onRejected : option Fn)
    (instance : AxiosInstance) : AxiosInstance :=
  mkInstance (create_config instance)
    (interceptors_request instance)
    (InterceptorManager_use onFulfilled onRejected (interceptors_response instance)).

(** ** Completions *)

(** What can be thrown: a value thrown by caller-supplied code, or one of the
    two error kinds that the specification names. *)
Inductive Exception :=
| InvalidConfigError
| EndpointFactoryError (cause : Exception)
| Thrown (v : Value).

Inductive completion (A : Type) :=
| Normal (a : A)
| Throw (e : Exception).
Arguments Normal {A} _.
Arguments Throw {A} _.

#[global] Instance completion_ret : MRet completion := fun _ a => Normal a.
#[global] Instance completion_bind : MBind completion := fun _ _ f c =>
  match c with
  | Normal a => f a
  | Throw e => Throw e
  end.

(** ** Service descriptors *)

(** [interface ApiServiceConfig<Endpoints>]. *)
Module ApiServiceConfig.
Record t := mk {
  name : string;
  baseUrl : option string;
  config : option AxiosRequestConfig;
  interceptors : option Interceptors.t;
  endpoints : AxiosInstance → completion Obj
}.
End ApiServiceConfig.

(** [class ApiService<Endpoints>]. *)
Module ApiService.
Record t := mk {
  name : string;
  baseUrl : string;
  config : AxiosRequestConfig;
  interceptors : option Interceptors.t;
  build : AxiosInstance → completion Obj
}.

(** [constructor(cfg)] (lines 45-51): five field assignments, with [??]
    defaults for [baseUrl] and [config]; nothing is checked and nothing is
    thrown. *)
Definition constructor (cfg : ApiServiceConfig.t) : completion t :=
  mret (mk (ApiServiceConfig.name cfg)
           (default EmptyString (ApiServiceConfig.baseUrl cfg))
           (default ∅ (ApiServiceConfig.config cfg))
           (ApiServiceConfig.interceptors cfg)
           (ApiServiceConfig.endpoints cfg)).
End ApiService.

(** [interface ApiClientConfig<Services>]; [services] in [for ... in]
    enumeration order. *)
Module ApiClientConfig.
Record t := mk {
  config : option AxiosRequestConfig;
  interceptors : option Interceptors.t;
  services : list (string * ApiService.t)
}.
End ApiClientConfig.

(** ** createApiClient *)

(** A service client is a plain object. *)
Abbreviation ServiceClient := (gmap string Value).

(** The client object.  It starts as [{}] and is only ever assigned to, by
    [client[service.name] = svcClient], so it is given by its own
    properties and by its prototype: [None] while that is still
    [Object.prototype], the service client that took its place once an
    assignment to [__proto__] reached the accessor of [Object.prototype]. *)
Record ApiClient := mkClient {
  client_own : gmap string ServiceClient;
  client_proto : option ServiceClient
}.

(** [{}]. *)
#[global] Instance client_empty : Empty ApiClient := mkClient ∅ None.

(** Whether an assignment to [__proto__] finds a data property of that
    name before it reaches the accessor of [Object.prototype]: on the client
    itself, or on the service client that is its prototype. *)
Definition proto_shadowed (client : ApiClient) : bool :=
  bool_decide (is_Some (client_own client !! "__proto__"))
  || match client_proto client with
     | Some parent => bool_decide (is_Some (parent !! "__proto__"))
     | None => false
     end.

(** [client[name] = svcClient] (line 142), an ordinary property assignment.
    For every name but [__proto__] it creates or overwrites the own property:
    whatever the prototype chain holds under the name is a writable data
    property.  For [__proto__] it runs the setter of [Object.prototype],
    which makes [svcClient] the prototype of the client and creates no own
    property, unless a data property of that name shadows the accessor. *)
Definition client_set (name : string) (svcClient : ServiceClient)
    (client : ApiClient) : ApiClient :=
  if decide (name = "__proto__") then
    if proto_shadowed client
    then mkClient (<[ name := svcClient ]> (client_own client)) (client_proto client)
    else mkClient (client_own client) (Some svcClient)
  else mkClient (<[ name := svcClient ]> (client_own client)) (client_proto client).

(** The entry of a client under a name, [client !! name]: what the
    assignments left there.  It is the own property of that name, and for
    [__proto__] without an own property the service client that became the
    prototype.  What a client inherits besides is no entry. *)
#[global] Instance client_lookup : Lookup string ServiceClient ApiClient :=
  λ name client,
    match client_own client !! name with
    | Some svcClient => Some svcClient
    | None => if decide (name = "__proto__") then client_proto client else None
    end.

(** One client laid over another: own properties and prototype of the
    first where it has them, of the second otherwise. *)
#[global] Instance client_union : Union ApiClient :=
  λ client2 client1,
    mkClient (client_own client2 ∪ client_own client1)
             (client_proto client2 ∪ client_proto client1).

(** A client without its entry under a name: without the own property, or
    for [__proto__] without an own property, with [Object.prototype] back as
    its prototype. *)
#[global] Instance client_delete : Delete string ApiClient :=
  λ name client,
    match client_own client !! name with
    | Some _ => mkClient (delete name (client_own client)) (client_proto client)
    | None =>
        if decide (name = "__proto__") then mkClient (client_own client) None
        else client
    end.

(** The template literal [`${rootUrl}${service.baseUrl}`] (line 101). *)
Definition baseURL_of (rootUrl : string) (service : ApiService.t) : string :=
  rootUrl +:+ ApiService.baseUrl service.

(** The [axiosConfig] object literal (lines 100-104):
    [{ baseURL: `${rootUrl}${service.baseUrl}`, ...globalConfig, ...service.config }]. *)
Definition axiosConfig_of (rootUrl : string) (globalConfig : AxiosRequestConfig)
    (service : ApiService.t) : AxiosRequestConfig :=
  spread (spread {[ "baseURL" := VStr (baseURL_of rootUrl service) ]}
                 globalConfig)
         (ApiService.config service).

(** [if (ixs?.request) instance.interceptors.request.use(ixs.request.onFulfilled!, ixs.request.onRejected)]. *)
Definition apply_request (ixs : option Interceptors.t) (instance : AxiosInstance)
  : AxiosInstance :=
  match ixs ≫= Interceptors.request with
  | Some h => request_use (Hooks.onFulfilled h) (Hooks.onRejected h) instance
  | None => instance
  end.

(** [if (ixs?.response) instance.interceptors.response.use(ixs.response.onFulfilled!, ixs.response.onRejected)]. *)
Definition apply_response (ixs : option Interceptors.t) (instance : AxiosInstance)
  : AxiosInstance :=
  match ixs ≫= Interceptors.response with
  | Some h => response_use (Hooks.onFulfilled h) (Hooks.onRejected h) instance
  | None => instance
  end.

(** The four conditional registrations (lines 107-127), in source order:
    global request, global response, service request, service response. *)
Definition register_interceptors (globalIxs : option Interceptors.t)
    (service : ApiService.t) (instance : AxiosInstance) : AxiosInstance :=
  apply_response (ApiService.interceptors service)
    (apply_request (ApiService.interceptors service)
      (apply_response globalIxs
        (apply_request globalIxs instance))).

(** The value of an optional interceptor set read as a property. *)
Definition interceptors_value (ixs : option Interceptors.t) : Value :=
  match ixs with
  | Some i => VInterceptors i
  | None => VUndefined
  end.

(** The [svcClient] object literal (lines 133-139):
    [{ ...endpoints, baseUrl, config: axiosConfig, interceptors, instance }]. *)
Definition svcClient_of (endpoints : Obj) (service : ApiService.t)
    (axiosConfig : AxiosRequestConfig) (instance : AxiosInstance) : ServiceClient :=
  <[ "instance" := VInstance instance ]>
    (<[ "interceptors" := interceptors_value (ApiService.interceptors service) ]>
      (<[ "config" := VObj axiosConfig ]>
        (<[ "baseUrl" := VStr (ApiService.baseUrl service) ]>
          (spread ∅ endpoints)))).

(** The handle of a service at the moment its endpoint factory is called:
    created on line 105, after the registrations of lines 107-127. *)
Definition instance_of (rootUrl : string) (globalConfig : AxiosRequestConfig)
    (globalIxs : option Interceptors.t) (service : ApiService.t) : AxiosInstance :=
  register_interceptors globalIxs service
    (axios_create (axiosConfig_of rootUrl globalConfig service)).

(** One iteration of the loop for [service] (lines 97-139), up to the
    composed service client; [service.build(instance)] on line 130 is the
    only call that can throw. *)
Definition assemble_service (rootUrl : string) (globalConfig : AxiosRequestConfig)
    (globalIxs : option Interceptors.t) (service : ApiService.t)
  : completion ServiceClient :=
  let axiosConfig := axiosConfig_of rootUrl globalConfig service in
  let instance := register_interceptors globalIxs service (axios_create axiosConfig) in
  endpoints ← ApiService.build service instance;
  mret (svcClient_of endpoints service axiosConfig instance).

(** The [for ... in] loop over the enumerated services (lines 96-143); each
    iteration ends with [client[service.name] = svcClient], and a throw in
    an iteration leaves the loop and the function. *)
Fixpoint assemble_loop (rootUrl : string) (globalConfig : AxiosRequestConfig)
    (globalIxs : option Interceptors.t) (services : list (string * ApiService.t))
    (client : ApiClient) : completion ApiClient :=
  match services with
  | [] => mret client
  | (key, service) :: rest =>
      svcClient ← assemble_service rootUrl globalConfig globalIxs service;
      assemble_loop rootUrl globalConfig globalIxs rest
        (client_set (ApiService.name service) svcClient client)
  end.

(** The destructuring default [config: globalConfig = {}] (line 93). *)
Definition globalConfig_of (init : ApiClientConfig.t) : AxiosRequestConfig :=
  default ∅ (ApiClientConfig.config init).

(** [createApiClient(rootUrl, init)] (lines 89-146): the loop, started on
    the empty client object. *)
Definition createApiClient (rootUrl : string) (init : ApiClientConfig.t)
  : completion ApiClient :=
  let globalConfig := globalConfig_of init in
  let globalIxs := ApiClientConfig.interceptors init in
  let services := ApiClientConfig.services init in
  assemble_loop rootUrl globalConfig globalIxs services ∅.

(** The handle of [service] in a call [createApiClient rootUrl init]. *)
Definition handle_of (rootUrl : string) (init : ApiClientConfig.t)
    (service : ApiService.t) : AxiosInstance :=
  instance_of rootUrl (globalConfig_of init) (ApiClientConfig.interceptors init) service.

(** The [axiosConfig] of [service] in a call [createApiClient rootUrl init]. *)
Definition effective_config (rootUrl : string) (init : ApiClientConfig.t)
    (service : ApiService.t) : AxiosRequestConfig :=
  axiosConfig_of rootUrl (globalConfig_of init) service.

(** ** The specification's vocabulary *)


(** Shallow merge, as the specification words it: a top-level key is looked
    up in the sources from the last to the first, and the first source found
    to define it gives the value; nothing is merged below the top level. *)
Fixpoint overriding_lookup (sources : list Obj) (k : string) : option Value :=
  match sources with
  | [] => None
  | source :: later =>
      match overriding_lookup later k with
      | Some v => Some v
      | None => source !! k
      end
  end.

(** The handlers that registering an optional hook pair contributes to a
    chain: one handler if the pair is present, none otherwise. *)
Definition registered (hooks : option Hooks.t) : list Handler :=
  match hooks with
  | Some h => [mkHandler (Hooks.onFulfilled h) (Hooks.onRejected h)]
  | None => []
  end.

(** The metadata field names of a service client. *)
Definition metadata_fields : list string :=
  ["baseUrl"; "config"; "interceptors"; "instance"].

(** The names under which the services of an enumeration are stored. *)
Definition service_names (services : list (string * ApiService.t)) : list string :=
  (ApiService.name ∘ snd) <$> services.

(** ** Sample inputs *)

Module Samples.

Definition rootUrl : string := "https://api.example.com".

Definition authHook : Fn := FnRef "addAuthToken".
Definition logError : Fn := FnRef "logError".
Definition retryHook : Fn := FnRef "retry".
Definition unwrapHook : Fn := FnRef "unwrap".

(** The [usersService] of the README. *)
Definition usersConfig : ApiServiceConfig.t :=
  ApiServiceConfig.mk "users" (Some "/users") None None
    (λ _, Normal {[ "getUsers" := VFun (FnRef "getUsers");
                    "getUser" := VFun (FnRef "getUser") ]}).

Definition usersService : ApiService.t :=
  ApiService.mk "users" "/users" ∅ None (ApiServiceConfig.endpoints usersConfig).

(** A descriptor without [baseUrl], [config] and [interceptors]. *)
Definition healthConfig : ApiServiceConfig.t :=
  ApiServiceConfig.mk "health" None None None
    (λ _, Normal {[ "ping" := VFun (FnRef "ping") ]}).

Definition healthService : ApiService.t :=
  ApiService.mk "health" EmptyString ∅ None (ApiServiceConfig.endpoints healthConfig).

(** A descriptor whose name is the empty string. *)
Definition unnamedConfig : ApiServiceConfig.t :=
  ApiServiceConfig.mk EmptyString None None None (λ _, Normal ∅).

(** A service with its own configuration and interceptors, one of them with
    [onRejected] only, and an endpoint called [config]. *)
Definition ordersService : ApiService.t :=
  ApiService.mk "orders" "/orders"
    {[ "timeout" := VNum 5000;
       "headers" := VObj {[ "X-Service" := VStr "orders" ]} ]}
    (Some (Interceptors.mk
             (Some (Hooks.mk None (Some retryHook)))
             (Some (Hooks.mk (Some unwrapHook) None))))
    (λ _, Normal {[ "list" := VFun (FnRef "listOrders");
                    "config" := VFun (FnRef "getOrderConfig") ]}).

(** A service whose endpoint factory throws the string ["boom"]. *)
Definition boomService : ApiService.t :=
  ApiService.mk "boom" "/boom" ∅ None (λ _, Throw (Thrown (VStr "boom"))).

Definition globalConfig : AxiosRequestConfig :=
  {[ "timeout" := VNum 1000;
     "headers" := VObj {[ "Content-Type" := VStr "application/json" ]} ]}.

Definition globalIxs : Interceptors.t :=
  Interceptors.mk (Some (Hooks.mk (Some authHook) None))
                  (Some (Hooks.mk None (Some logError))).

(** The client of the README, with the services stored under keys that
    differ from their names. *)
Definition init : ApiClientConfig.t :=
  ApiClientConfig.mk (Some globalConfig) (Some globalIxs)
    [("u", usersService); ("h", healthService); ("o", ordersService)].

(** A root URL that ends in a slash, before a segment that starts with one. *)
Definition slashRootUrl : string := "https://api.example.com/".

Definition usersOnly : ApiClientConfig.t :=
  ApiClientConfig.mk None None [("users", usersService)].

(** A descriptor named [__proto__], and a client of that service alone. *)
Definition protoService : ApiService.t :=
  ApiService.mk "__proto__" "/proto" ∅ None
    (λ _, Normal {[ "ping" := VFun (FnRef "ping") ]}).

Definition protoInit : ApiClientConfig.t :=
  ApiClientConfig.mk None None [("p", protoService)].

(** The same with the throwing service between two working ones. *)
Definition boomInit : ApiClientConfig.t :=
  ApiClientConfig.mk (Some globalConfig) (Some globalIxs)
    [("u", usersService); ("b", boomService); ("o", ordersService)].

End Samples.

(** Further sample inputs. *)
Module MoreSamples.

(** A second descriptor that is also named [users]. *)
Definition usersV2Service : ApiService.t :=
  ApiService.mk "users" "/v2/users" {[ "timeout" := VNum 250 ]} None
    (λ _, Normal {[ "getUser" := VFun (FnRef "getUserV2") ]}).

(** Two descriptors of the same name. *)
Definition duplicateInit : ApiClientConfig.t :=
  ApiClientConfig.mk None None
    [("a", Samples.usersService); ("b", usersV2Service)].

(** The services of [Samples.init] in another order, under other keys. *)
Definition reorderedServices : list (string * ApiService.t) :=
  [("x", Samples.ordersService); ("y", Samples.usersService);
   ("z", Samples.healthService)].

(** A descriptor named [__proto__] whose endpoint object has a property
    of that name too. *)
Definition shadowService : ApiService.t :=
  ApiService.mk "__proto__" "/shadow" ∅ None
    (λ _, Normal {[ "__proto__" := VFun (FnRef "shadow") ]}).

(** A global configuration that sets [baseURL] itself. *)
Definition pinnedConfig : AxiosRequestConfig :=
  {[ "baseURL" := VStr "https://staging.example.com" ]}.

Definition pinnedInit : ApiClientConfig.t :=
  ApiClientConfig.mk (Some pinnedConfig) None [("u", Samples.usersService)].

End MoreSamples.

(** * Properties *)

(** ** Completions *)

Lemma completion_bind_Normal {A B} (c : completion A) (f : A → completion B) b :
  c ≫= f = Normal b → ∃ a, c = Normal a ∧ f a = Normal b.
Proof. destruct c as [a|e]; [eauto | discriminate]. Qed.

(** ** The client object *)

Lemma client_lookup_empty (n : string) : (∅ : ApiClient) !! n = None.
Proof.
  unfold lookup, client_lookup; simpl. rewrite lookup_empty.
  by destruct (decide (n = "__proto__")).
Qed.

(** An assignment is read back, whichever way it went. *)
Lemma client_lookup_set_eq (n : string) sc (client : ApiClient) :
  client_set n sc client !! n = Some sc.
Proof.
  unfold lookup, client_lookup, client_set, proto_shadowed.
  destruct (decide (n = "__proto__")) as [->|Hn].
  - destruct (client_own client !! "__proto__") as [old|] eqn:Hown; simpl.
    + by rewrite lookup_insert_eq.
    + destruct (client_proto client) as [parent|]; simpl.
      * destruct (bool_decide (is_Some (parent !! "__proto__"))); simpl.
        -- by rewrite lookup_insert_eq.
        -- by rewrite Hown.
      * by rewrite Hown.
  - simpl. by rewrite lookup_insert_eq.
Qed.

(** An assignment leaves the entries under other names alone. *)
Lemma client_lookup_set_ne (n m : string) sc (client : ApiClient) :
  n ≠ m → client_set n sc client !! m = client !! m.
Proof.
  intros Hnm. unfold lookup, client_lookup, client_set.
  destruct (decide (n = "__proto__")) as [->|Hn].
  - destruct (proto_shadowed client); simpl.
    + by rewrite lookup_insert_ne.
    + destruct (client_own client !! m); [done|].
      by destruct (decide (m = "__proto__")).
  - simpl. by rewrite lookup_insert_ne.
Qed.

(** ** The loop, step by step *)

Section Assembly.
Variable rootUrl : string.
Variable globalConfig : AxiosRequestConfig.
Variable globalIxs : option Interceptors.t.

Local Abbreviation handle := (instance_of rootUrl globalConfig globalIxs).
Local Abbreviation merged := (axiosConfig_of rootUrl globalConfig).
Local Abbreviation step := (assemble_service rootUrl globalConfig globalIxs).
Local Abbreviation loop := (assemble_loop rootUrl globalConfig globalIxs).

(** An iteration returns exactly when the endpoint factory returns, and then
    yields the composed service client. *)
Lemma assemble_service_Normal (service : ApiService.t) (sc : ServiceClient) :
  step service = Normal sc ↔
  ∃ endpoints, ApiService.build service (handle service) = Normal endpoints
             ∧ sc = svcClient_of endpoints service (merged service) (handle service).
Proof.
  unfold assemble_service; fold (handle service).
  destruct (ApiService.build service (handle service)) as [eps|e]; simpl;
    unfold mret, completion_ret; split.
  - intros [= <-]. by exists eps.
  - by intros (eps' & [= <-] & ->).
  - done.
  - by intros (? & ? & _).
Qed.

(** An iteration throws exactly what the endpoint factory throws. *)
Lemma assemble_service_Throw (service : ApiService.t) (e : Exception) :
  step service = Throw e ↔ ApiService.build service (handle service) = Throw e.
Proof.
  unfold assemble_service; fold (handle service).
  destruct (ApiService.build service (handle service)); simpl;
    unfold mret, completion_ret; split; congruence.
Qed.

Lemma assemble_loop_cons key service rest client :
  loop ((key, service) :: rest) client =
  match step service with
  | Normal sc => loop rest (client_set (ApiService.name service) sc client)
  | Throw e => Throw e
  end.
Proof. reflexivity. Qed.

(** Iterating over a concatenation is iterating over the parts in turn. *)
Lemma assemble_loop_app pre post client :
  loop (pre ++ post) client = loop pre client ≫= loop post.
Proof.
  revert client; induction pre as [|[key service] pre IH]; intros client.
  - reflexivity.
  - rewrite <- app_comm_cons, !assemble_loop_cons.
    destruct (step service); [apply IH | reflexivity].
Qed.

(** A failing iteration anywhere makes the whole loop throw. *)
Lemma assemble_loop_Throw services key service e client :
  (key, service) ∈ services →
  step service = Throw e →
  ∃ e', loop services client = Throw e'.
Proof.
  intros Hin Hstep; revert client.
  induction services as [|[k s] rest IH]; intros client.
  - by apply elem_of_nil in Hin.
  - rewrite assemble_loop_cons. apply elem_of_cons in Hin as [[= <- <-]|Hin].
    + rewrite Hstep; eauto.
    + destruct (step s); eauto.
Qed.

(** The first failing iteration decides what is thrown. *)
Lemma assemble_loop_first_Throw pre key service post e client :
  Forall (λ ks, ∃ sc, step ks.2 = Normal sc) pre →
  step service = Throw e →
  loop (pre ++ (key, service) :: post) client = Throw e.
Proof.
  intros Hpre Hstep; revert client.
  induction Hpre as [|[k s] pre [sc Hsc] _ IH]; intros client; simpl in *.
  - by rewrite Hstep.
  - rewrite Hsc; simpl. apply IH.
Qed.

(** When the loop returns, every iteration returned. *)
Lemma assemble_loop_Normal_all services client0 client :
  loop services client0 = Normal client →
  Forall (λ ks, ∃ sc, step ks.2 = Normal sc) services.
Proof.
  revert client0; induction services as [|[k s] rest IH]; intros client0 H.
  - constructor.
  - rewrite assemble_loop_cons in H. destruct (step s) as [sc|] eqn:E; [|done].
    constructor; eauto.
Qed.

(** A property whose name no service has is left as it was. *)
Lemma assemble_loop_lookup_other services client0 client (n : string) :
  n ∉ service_names services →
  loop services client0 = Normal client →
  client !! n = client0 !! n.
Proof.
  revert client0; induction services as [|[k s] rest IH]; intros client0 Hn H.
  - by injection H as <-.
  - rewrite assemble_loop_cons in H. destruct (step s) as [sc|]; [|done].
    unfold service_names in Hn; rewrite fmap_cons in Hn.
    apply not_elem_of_cons in Hn as [Hne Hn].
    rewrite (IH _ Hn H). by apply client_lookup_set_ne.
Qed.

(** Each service of a loop that returns had its factory return, and its
    client is its entry unless a later service has the same name. *)
Lemma assemble_loop_service pre key service post client0 client :
  loop (pre ++ (key, service) :: post) client0 = Normal client →
  ∃ endpoints,
    ApiService.build service (handle service) = Normal endpoints ∧
    (ApiService.name service ∉ service_names post →
     client !! ApiService.name service =
       Some (svcClient_of endpoints service (merged service) (handle service))).
Proof.
  intros H. rewrite assemble_loop_app in H.
  apply completion_bind_Normal in H as (c1 & _ & H).
  rewrite assemble_loop_cons in H.
  destruct (step service) as [sc|] eqn:Hstep; [|done].
  apply assemble_service_Normal in Hstep as (eps & Hb & ->).
  exists eps; split; [done|]. intros Hlast.
  rewrite (assemble_loop_lookup_other _ _ _ _ Hlast H).
  apply client_lookup_set_eq.
Qed.

(** Every entry of the result that was not there before is the client
    composed for the last service of that name. *)
Lemma assemble_loop_lookup_inv services client0 client (n : string) sc :
  loop services client0 = Normal client →
  client !! n = Some sc →
  (client0 !! n = Some sc ∧ n ∉ service_names services) ∨
  ∃ pre key service post endpoints,
    services = pre ++ (key, service) :: post ∧
    ApiService.name service = n ∧
    (n ∉ service_names post) ∧
    ApiService.build service (handle service) = Normal endpoints ∧
    sc = svcClient_of endpoints service (merged service) (handle service).
Proof.
  revert client0; induction services as [|[k s] rest IH]; intros client0 H Hn.
  - injection H as <-. left. split; [done | apply not_elem_of_nil].
  - rewrite assemble_loop_cons in H.
    destruct (step s) as [sc0|] eqn:Hstep; [|done].
    destruct (IH _ H Hn) as [[Hn0 Hrest]|(pre & key & service & post & eps & -> & ?)].
    + destruct (decide (ApiService.name s = n)) as [Heq|Hne].
      * right. subst n. rewrite client_lookup_set_eq in Hn0. injection Hn0 as ->.
        apply assemble_service_Normal in Hstep as (eps & Hb & ->).
        by exists [], k, s, rest, eps.
      * left. rewrite client_lookup_set_ne in Hn0 by done. split; [done|].
        unfold service_names; rewrite fmap_cons. by apply not_elem_of_cons.
    + right. by exists ((k, s) :: pre), key, service, post, eps.
Qed.

End Assembly.

(** ** Entries of the returned client *)

(** Every entry of the client that [createApiClient] returns is the service
    client composed for an enumerated service of that name, from the
    endpoints that its factory returned. *)
Lemma createApiClient_entry rootUrl init client (n : string) sc :
  createApiClient rootUrl init = Normal client →
  client !! n = Some sc →
  ∃ key service endpoints,
    (key, service) ∈ ApiClientConfig.services init ∧
    ApiService.name service = n ∧
    ApiService.build service (handle_of rootUrl init service) = Normal endpoints ∧
    sc = svcClient_of endpoints service
           (effective_config rootUrl init service)
           (handle_of rootUrl init service).
Proof.
  unfold createApiClient, handle_of, effective_config. intros H Hn.
  destruct (assemble_loop_lookup_inv _ _ _ _ _ _ _ _ H Hn)
    as [[Hempty _]|(pre & key & service & post & eps & Hs & Hname & _ & Hb & ->)].
  - by rewrite client_lookup_empty in Hempty.
  - exists key, service, eps. rewrite Hs. repeat split; try done.
    apply elem_of_app; right; apply elem_of_cons; by left.
Qed.

(** Each enumerated service of a call that returns: its factory returned on
    its handle, and the client composed from that result is its entry unless
    a later service has the same name. *)
Lemma createApiClient_service rootUrl init client pre key service post :
  ApiClientConfig.services init = pre ++ (key, service) :: post →
  createApiClient rootUrl init = Normal client →
  ∃ endpoints,
    ApiService.build service (handle_of rootUrl init service) = Normal endpoints ∧
    (ApiService.name service ∉ service_names post →
     client !! ApiService.name service =
       Some (svcClient_of endpoints service
               (effective_config rootUrl init service)
               (handle_of rootUrl init service))).
Proof.
  unfold createApiClient, handle_of, effective_config.
  intros -> H. by apply assemble_loop_service in H.
Qed.

(** The four metadata fields of a composed service client, whatever the
    endpoint object holds. *)
Lemma svcClient_of_metadata endpoints service axiosConfig instance :
  let sc := svcClient_of endpoints service axiosConfig instance in
  sc !! "baseUrl" = Some (VStr (ApiService.baseUrl service)) ∧
  sc !! "config" = Some (VObj axiosConfig) ∧
  sc !! "interceptors" = Some (interceptors_value (ApiService.interceptors service)) ∧
  sc !! "instance" = Some (VInstance instance).
Proof.
  unfold svcClient_of; cbv zeta.
  repeat split; repeat (rewrite lookup_insert_ne by discriminate);
    apply lookup_insert_eq.
Qed.

(** Every other property is the endpoint of that name. *)
Lemma svcClient_of_endpoint endpoints service axiosConfig instance (k : string) :
  k ∉ metadata_fields →
  svcClient_of endpoints service axiosConfig instance !! k = endpoints !! k.
Proof.
  unfold metadata_fields, svcClient_of, spread. intros Hk.
  rewrite !not_elem_of_cons in Hk. destruct Hk as (? & ? & ? & ? & _).
  rewrite !lookup_insert_ne by done. by rewrite (right_id_L ∅ (∪)).
Qed.

(** ** The handle of a service *)


(** The request chain: the global pair, then the pair of the service. *)
Lemma instance_of_request rootUrl globalConfig globalIxs service :
  interceptors_request (instance_of rootUrl globalConfig globalIxs service)
  = registered (globalIxs ≫= Interceptors.request)
    ++ registered (ApiService.interceptors service ≫= Interceptors.request).
Proof.
  unfold instance_of, register_interceptors, apply_request, apply_response.
  destruct (globalIxs ≫= Interceptors.request),
           (globalIxs ≫= Interceptors.response),
           (ApiService.interceptors service ≫= Interceptors.request),
           (ApiService.interceptors service ≫= Interceptors.response);
    reflexivity.
Qed.

(** The response chain: the global pair, then the pair of the service. *)
Lemma instance_of_response rootUrl globalConfig globalIxs service :
  interceptors_response (instance_of rootUrl globalConfig globalIxs service)
  = registered (globalIxs ≫= Interceptors.response)
    ++ registered (ApiService.interceptors service ≫= Interceptors.response).
Proof.
  unfold instance_of, register_interceptors, apply_request, apply_response.
  destruct (globalIxs ≫= Interceptors.request),
           (globalIxs ≫= Interceptors.response),
           (ApiService.interceptors service ≫= Interceptors.request),
           (ApiService.interceptors service ≫= Interceptors.response);
    reflexivity.
Qed.

(** ** Spreads *)

Lemma lookup_spread (target source : Obj) (k : string) :
  spread target source !! k =
  match source !! k with
  | Some v => Some v
  | None => target !! k
  end.
Proof.
  unfold spread. rewrite lookup_union.
  destruct (source !! k), (target !! k); reflexivity.
Qed.

(** The object literal of the effective configuration is the shallow merge
    of its three sources. *)
Lemma axiosConfig_of_lookup rootUrl globalConfig service (k : string) :
  axiosConfig_of rootUrl globalConfig service !! k =
  overriding_lookup
    [ {[ "baseURL" := VStr (baseURL_of rootUrl service) ]};
      globalConfig;
      ApiService.config service ] k.
Proof.
  unfold axiosConfig_of. rewrite !lookup_spread. simpl.
  destruct (ApiService.config service !! k); [done|].
  by destruct (globalConfig !! k).
Qed.

(** ** When the loop returns *)

(** If every factory returns on its handle, so does the loop: nothing else
    in an iteration can throw. *)
Lemma assemble_loop_Normal_intro rootUrl globalConfig globalIxs services client0 :
  Forall (λ ks, ∃ endpoints,
            ApiService.build ks.2 (instance_of rootUrl globalConfig globalIxs ks.2)
            = Normal endpoints) services →
  ∃ client, assemble_loop rootUrl globalConfig globalIxs services client0 = Normal client.
Proof.
  intros Hall; revert client0.
  induction Hall as [|[k s] rest [eps Hb] _ IH]; intros client0.
  - by exists client0.
  - rewrite assemble_loop_cons.
    assert (assemble_service rootUrl globalConfig globalIxs s
            = Normal (svcClient_of eps s (axiosConfig_of rootUrl globalConfig s)
                        (instance_of rootUrl globalConfig globalIxs s))) as ->
      by (apply assemble_service_Normal; eauto).
    apply IH.
Qed.

(** A call returns when every endpoint factory returns on its handle. *)
Lemma createApiClient_returns rootUrl init :
  Forall (λ ks, ∃ endpoints,
            ApiService.build ks.2 (handle_of rootUrl init ks.2) = Normal endpoints)
         (ApiClientConfig.services init) →
  ∃ client, createApiClient rootUrl init = Normal client.
Proof. unfold createApiClient, handle_of. apply assemble_loop_Normal_intro. Qed.

Lemma append_empty_r (s : string) : s +:+ EmptyString = s.
Proof.
  induction s as [|a s IH]; [done|].
  change (String a (s +:+ EmptyString) = String a s). by rewrite IH.
Qed.

(** * The claims *)



(** C2.  For every service, the interceptors are registered on the handle of
    that service in a fixed order: on the request chain the global pair (if
    present) and then the pair of the service (if present), on the response
    chain likewise.  Registering the pair of the service neither replaces
    nor removes the global one: when both are present the chain holds both,
    the global one first. *)
Theorem C2_interceptors_registered_global_first
    rootUrl init client pre key service post :
  ApiClientConfig.services init = pre ++ (key, service) :: post →
  createApiClient rootUrl init = Normal client →
  interceptors_request (handle_of rootUrl init service)
  = (registered (ApiClientConfig.interceptors init ≫= Interceptors.request)
     ++ registered (ApiService.interceptors service ≫= Interceptors.request)) ∧
  interceptors_response (handle_of rootUrl init service)
  = (registered (ApiClientConfig.interceptors init ≫= Interceptors.response)
     ++ registered (ApiService.interceptors service ≫= Interceptors.response)) ∧
  (∀ g s, ApiClientConfig.interceptors init ≫= Interceptors.request = Some g →
          ApiService.interceptors service ≫= Interceptors.request = Some s →
          interceptors_request (handle_of rootUrl init service)
          = [ mkHandler (Hooks.onFulfilled g) (Hooks.onRejected g);
              mkHandler (Hooks.onFulfilled s) (Hooks.onRejected s) ]) ∧
  (∀ g s, ApiClientConfig.interceptors init ≫= Interceptors.response = Some g →
          ApiService.interceptors service ≫= Interceptors.response = Some s →
          interceptors_response (handle_of rootUrl init service)
          = [ mkHandler (Hooks.onFulfilled g) (Hooks.onRejected g);
              mkHandler (Hooks.onFulfilled s) (Hooks.onRejected s) ]) ∧
  (∃ endpoints,
     ApiService.build service (handle_of rootUrl init service) = Normal endpoints) ∧
  (ApiService.name service ∉ service_names post →
   ∃ sc, client !! ApiService.name service = Some sc ∧
         sc !! "instance" = Some (VInstance (handle_of rootUrl init service))).
Proof.
  intros Hs H.
  destruct (createApiClient_service _ _ _ _ _ _ _ Hs H) as (eps & Hb & Hentry).
  pose proof (instance_of_request rootUrl (globalConfig_of init)
                (ApiClientConfig.interceptors init) service) as Hreq.
  pose proof (instance_of_response rootUrl (globalConfig_of init)
                (ApiClientConfig.interceptors init) service) as Hresp.
  fold (handle_of rootUrl init service) in Hreq, Hresp.
  split; [exact Hreq|]. split; [exact Hresp|].
  split; [by intros g s Hg Hsv; rewrite Hreq, Hg, Hsv|].
  split; [by intros g s Hg Hsv; rewrite Hresp, Hg, Hsv|].
  split; [by exists eps|].
  intros Hlast. eexists; split; [by apply Hentry|].
  apply svcClient_of_metadata.
Qed.

Lemma C2_interceptors_registered_global_first_witness :
  ∃ client,
    createApiClient Samples.rootUrl Samples.init = Normal client ∧
    interceptors_request (handle_of Samples.rootUrl Samples.init Samples.ordersService)
    = [ mkHandler (Some Samples.authHook) None;
        mkHandler None (Some Samples.retryHook) ] ∧
    interceptors_response (handle_of Samples.rootUrl Samples.init Samples.ordersService)
    = [ mkHandler None (Some Samples.logError);
        mkHandler (Some Samples.unwrapHook) None ].
Proof.
  eexists; split; [reflexivity|].
  destruct (C2_interceptors_registered_global_first Samples.rootUrl Samples.init _
              [("u", Samples.usersService); ("h", Samples.healthService)]
              "o" Samples.ordersService [] eq_refl eq_refl)
    as (Hreq & Hresp & _).
  split; [exact Hreq | exact Hresp].
Defined.

(** C3.  In the composed service client the metadata fields [baseUrl],
    [config], [interceptors] and [instance] hold the metadata whatever the
    endpoint factory returned under those names; every other property is the
    endpoint of that name.  In particular, when the endpoint object has a
    function under [config], the [config] of the service client is the
    effective configuration and not that function. *)
Theorem C3_metadata_wins_over_endpoints
    rootUrl init client pre key service post :
  ApiClientConfig.services init = pre ++ (key, service) :: post →
  ApiService.name service ∉ service_names post →
  createApiClient rootUrl init = Normal client →
  ∃ endpoints sc,
    ApiService.build service (handle_of rootUrl init service) = Normal endpoints ∧
    client !! ApiService.name service = Some sc ∧
    sc !! "baseUrl" = Some (VStr (ApiService.baseUrl service)) ∧
    sc !! "config" = Some (VObj (effective_config rootUrl init service)) ∧
    sc !! "interceptors"
      = Some (interceptors_value (ApiService.interceptors service)) ∧
    sc !! "instance" = Some (VInstance (handle_of rootUrl init service)) ∧
    (∀ f, endpoints !! "config" = Some (VFun f) → sc !! "config" ≠ Some (VFun f)) ∧
    (∀ k, k ∉ metadata_fields → sc !! k = endpoints !! k).
Proof.
  intros Hs Hlast H.
  destruct (createApiClient_service _ _ _ _ _ _ _ Hs H) as (eps & Hb & Hentry).
  destruct (svcClient_of_metadata eps service
              (effective_config rootUrl init service)
              (handle_of rootUrl init service)) as (Hbase & Hc & Hi & Hh).
  eexists eps, _. split; [done|]. split; [by apply Hentry|].
  split; [exact Hbase|]. split; [exact Hc|]. split; [exact Hi|].
  split; [exact Hh|]. split.
  - intros f _. rewrite Hc. discriminate.
  - intros k Hk. by apply svcClient_of_endpoint.
Qed.

Lemma C3_metadata_wins_over_endpoints_witness :
  ∃ client endpoints sc,
    createApiClient Samples.rootUrl Samples.init = Normal client ∧
    ApiService.build Samples.ordersService
      (handle_of Samples.rootUrl Samples.init Samples.ordersService) = Normal endpoints ∧
    endpoints !! "config" = Some (VFun (FnRef "getOrderConfig")) ∧
    client !! "orders" = Some sc ∧
    sc !! "config"
      = Some (VObj (effective_config Samples.rootUrl Samples.init Samples.ordersService)) ∧
    sc !! "list" = Some (VFun (FnRef "listOrders")).
Proof.
  eexists.
  destruct (C3_metadata_wins_over_endpoints Samples.rootUrl Samples.init _
              [("u", Samples.usersService); ("h", Samples.healthService)]
              "o" Samples.ordersService [] eq_refl (not_elem_of_nil _) eq_refl)
    as (endpoints & sc & Hb & Hentry & _ & Hc & _ & _ & _ & Hother).
  exists endpoints, sc. split; [reflexivity|]. split; [exact Hb|].
  assert (endpoints = {[ "list" := VFun (FnRef "listOrders");
                         "config" := VFun (FnRef "getOrderConfig") ]}) as Heps.
  { simpl in Hb. by injection Hb as <-. }
  split; [by rewrite Heps|]. split; [exact Hentry|]. split; [exact Hc|].
  rewrite Hother; [by rewrite Heps|].
  unfold metadata_fields. rewrite !not_elem_of_cons. repeat split; try discriminate.
  apply not_elem_of_nil.
Defined.

(** C10.  The [interceptors] field of a service client is exactly the
    interceptor set of its own descriptor, the one given to the constructor:
    the global interceptors registered on the same handle are no part of it,
    and the field is [undefined] when the descriptor has no interceptors,
    also when global interceptors were registered. *)
Theorem C10_interceptors_field_is_the_services_own
    rootUrl init client pre key cfg service post :
  ApiService.constructor cfg = Normal service →
  ApiClientConfig.services init = pre ++ (key, service) :: post →
  ApiService.name service ∉ service_names post →
  createApiClient rootUrl init = Normal client →
  ∃ sc,
    client !! ApiService.name service = Some sc ∧
    sc !! "interceptors"
      = Some (interceptors_value (ApiServiceConfig.interceptors cfg)) ∧
    (∀ own, ApiServiceConfig.interceptors cfg = Some own →
            sc !! "interceptors" = Some (VInterceptors own)) ∧
    (ApiServiceConfig.interceptors cfg = None →
     sc !! "interceptors" = Some VUndefined) ∧
    (∀ g, ApiClientConfig.interceptors init = Some g →
          ApiServiceConfig.interceptors cfg = None →
          interceptors_request (handle_of rootUrl init service)
            = registered (Interceptors.request g) ∧
          interceptors_response (handle_of rootUrl init service)
            = registered (Interceptors.response g) ∧
          sc !! "interceptors" = Some VUndefined).
Proof.
  intros [= <-] Hs Hlast H.
  destruct (createApiClient_service _ _ _ _ _ _ _ Hs H) as (eps & Hb & Hentry).
  eexists; split; [by apply Hentry|].
  match goal with |- ?lhs = _ ∧ _ =>
    assert (Hi : lhs = Some (interceptors_value (ApiServiceConfig.interceptors cfg)))
      by apply svcClient_of_metadata
  end.
  split; [exact Hi|]. split; [by intros own Hown; rewrite Hi, Hown|].
  split; [by intros Hnone; rewrite Hi, Hnone|].
  intros g Hg Hnone. split; [|split].
  - unfold handle_of. rewrite instance_of_request, Hg; simpl.
    rewrite Hnone; simpl. apply app_nil_r.
  - unfold handle_of. rewrite instance_of_response, Hg; simpl.
    rewrite Hnone; simpl. apply app_nil_r.
  - by rewrite Hi, Hnone.
Qed.

Lemma C10_interceptors_field_is_the_services_own_witness :
  ∃ client sc,
    createApiClient Samples.rootUrl Samples.init = Normal client ∧
    client !! "health" = Some sc ∧
    interceptors_request (handle_of Samples.rootUrl Samples.init Samples.healthService)
      = [ mkHandler (Some Samples.authHook) None ] ∧
    sc !! "interceptors" = Some VUndefined.
Proof.
  destruct (createApiClient_returns Samples.rootUrl Samples.init)
    as [client Hrun]; [repeat constructor; by eexists|].
  destruct (C10_interceptors_field_is_the_services_own Samples.rootUrl Samples.init
              client [("u", Samples.usersService)] "h" Samples.healthConfig
              Samples.healthService [("o", Samples.ordersService)]
              eq_refl eq_refl)
    as (sc & Hentry & _ & _ & _ & Hglobal).
  - cbn. rewrite not_elem_of_cons. split; [discriminate | apply not_elem_of_nil].
  - exact Hrun.
  - exists client, sc. split; [exact Hrun|]. split; [exact Hentry|].
    destruct (Hglobal Samples.globalIxs eq_refl eq_refl) as (Hreq & _ & Hfield).
    split; [exact Hreq | exact Hfield].
Defined.

(** C7.  The claim, that with pairwise distinct names the returned client
    has one entry per service under the descriptor's name, is what the code
    sets out to do, but the code misses the name [__proto__]: the assignment
    [client[service.name] = svcClient] then replaces the prototype of the
    client and creates no own property.  For the single descriptor named
    [__proto__] the names are pairwise distinct and there is one service, yet
    the returned client has no own property at all; the service client has
    become its prototype. *)
Theorem C7_descriptor_named_proto_gets_no_own_entry :
  NoDup (service_names (ApiClientConfig.services Samples.protoInit)) ∧
  length (ApiClientConfig.services Samples.protoInit) = 1 ∧
  ∃ client endpoints,
    createApiClient Samples.rootUrl Samples.protoInit = Normal client ∧
    ApiService.build Samples.protoService
      (handle_of Samples.rootUrl Samples.protoInit Samples.protoService)
    = Normal endpoints ∧
    client_own client = ∅ ∧
    size (client_own client) = 0 ∧
    client_proto client
    = Some (svcClient_of endpoints Samples.protoService
              (effective_config Samples.rootUrl Samples.protoInit Samples.protoService)
              (handle_of Samples.rootUrl Samples.protoInit Samples.protoService)).
Proof.
  split; [repeat constructor; apply not_elem_of_nil|]. split; [reflexivity|].
  eexists _, _. split; [reflexivity|]. split; [reflexivity|].
  split; [reflexivity|]. split; [|reflexivity].
  change (size (∅ : gmap string ServiceClient) = 0). apply map_size_empty.
Qed.

(** C8.  A descriptor constructed without [baseUrl] stores the empty string
    as its segment, and the base URL derived for it is [rootUrl] exactly.  In
    general the derived base URL is the concatenation of [rootUrl] and the
    segment, character for character; it is the [baseURL] of the effective
    configuration when neither configuration sets that key.  The [baseUrl]
    field of the service client is the segment alone. *)
Theorem C8_base_url_is_plain_concatenation
    rootUrl init client pre key cfg service post :
  ApiService.constructor cfg = Normal service →
  ApiClientConfig.services init = pre ++ (key, service) :: post →
  ApiService.name service ∉ service_names post →
  createApiClient rootUrl init = Normal client →
  ApiService.baseUrl service = default EmptyString (ApiServiceConfig.baseUrl cfg) ∧
  (ApiServiceConfig.baseUrl cfg = None →
   ApiService.baseUrl service = EmptyString ∧ baseURL_of rootUrl service = rootUrl) ∧
  (∀ segment, ApiServiceConfig.baseUrl cfg = Some segment →
     baseURL_of rootUrl service = rootUrl +:+ segment) ∧
  ∃ sc effective,
    client !! ApiService.name service = Some sc ∧
    sc !! "baseUrl" = Some (VStr (ApiService.baseUrl service)) ∧
    sc !! "config" = Some (VObj effective) ∧
    (ApiService.config service !! "baseURL" = None →
     globalConfig_of init !! "baseURL" = None →
     effective !! "baseURL" = Some (VStr (rootUrl +:+ ApiService.baseUrl service)) ∧
     (ApiServiceConfig.baseUrl cfg = None →
      effective !! "baseURL" = Some (VStr rootUrl))).
Proof.
  intros [= <-] Hs Hlast H; simpl in *.
  split; [reflexivity|]. split; [|split].
  - intros ->; simpl. split; [reflexivity|].
    unfold baseURL_of; simpl. apply append_empty_r.
  - by intros segment ->.
  - destruct (createApiClient_service _ _ _ _ _ _ _ Hs H) as (eps & Hb & Hentry).
    eexists _, _. split; [by apply Hentry|].
    split; [apply svcClient_of_metadata|]. split; [apply svcClient_of_metadata|].
    intros Hsvc Hglob. unfold effective_config.
    rewrite axiosConfig_of_lookup; simpl in *. rewrite Hsvc, Hglob.
    split; [apply lookup_singleton_eq|].
    intros ->; simpl. unfold baseURL_of; simpl.
    rewrite append_empty_r. apply lookup_singleton_eq.
Qed.

Lemma C8_base_url_is_plain_concatenation_witness :
  ∃ client sc effective,
    createApiClient Samples.slashRootUrl Samples.usersOnly = Normal client ∧
    client !! "users" = Some sc ∧
    sc !! "baseUrl" = Some (VStr "/users") ∧
    sc !! "config" = Some (VObj effective) ∧
    effective !! "baseURL" = Some (VStr "https://api.example.com//users").
Proof.
  destruct (createApiClient_returns Samples.slashRootUrl Samples.usersOnly)
    as [client Hrun]; [repeat constructor; by eexists|].
  destruct (C8_base_url_is_plain_concatenation Samples.slashRootUrl Samples.usersOnly
              client [] "users" Samples.usersConfig Samples.usersService []
              eq_refl eq_refl (not_elem_of_nil _) Hrun)
    as (_ & _ & _ & sc & effective & Hentry & Hbase & Hc & Hurl).
  exists client, sc, effective. split; [exact Hrun|]. split; [exact Hentry|].
  split; [exact Hbase|]. split; [exact Hc|].
  by apply Hurl.
Defined.



(** C6.  When the iteration of some service fails, [createApiClient] returns
    no value: it throws, so no client, partial or otherwise, is returned,
    whatever services were processed before the failing one. *)
Theorem C6_failure_returns_no_client rootUrl init key service e :
  (key, service) ∈ ApiClientConfig.services init →
  assemble_service rootUrl (globalConfig_of init)
    (ApiClientConfig.interceptors init) service = Throw e →
  (∃ e', createApiClient rootUrl init = Throw e') ∧
  (∀ client, createApiClient rootUrl init ≠ Normal client).
Proof.
  intros Hin Hstep. unfold createApiClient; cbv zeta.
  destruct (assemble_loop_Throw _ _ _ _ _ _ _ ∅ Hin Hstep) as [e' He'].
  split; [by exists e'|]. intros client. by rewrite He'.
Qed.

Lemma C6_failure_returns_no_client_witness :
  assemble_service Samples.rootUrl (globalConfig_of Samples.boomInit)
    (ApiClientConfig.interceptors Samples.boomInit) Samples.usersService
  = Normal (svcClient_of
              {[ "getUsers" := VFun (FnRef "getUsers");
                 "getUser" := VFun (FnRef "getUser") ]}
              Samples.usersService
              (effective_config Samples.rootUrl Samples.boomInit Samples.usersService)
              (handle_of Samples.rootUrl Samples.boomInit Samples.usersService)) ∧
  (∃ e', createApiClient Samples.rootUrl Samples.boomInit = Throw e') ∧
  (∀ client, createApiClient Samples.rootUrl Samples.boomInit ≠ Normal client).
Proof.
  split; [reflexivity|].
  apply (C6_failure_returns_no_client Samples.rootUrl Samples.boomInit
           "b" Samples.boomService (Thrown (VStr "boom"))).
  - cbn. rewrite !elem_of_cons. by right; left.
  - reflexivity.
Defined.

(** C4, as the code has it.  The constructor validates nothing: for every
    configuration record, the empty name included, it completes normally,
    stores the name as given, applies the two defaults and keeps the endpoint
    factory unevaluated.  It never throws, [InvalidConfigError] or otherwise. *)
Theorem C4_constructor_accepts_every_record (cfg : ApiServiceConfig.t) :
  (∃ service,
     ApiService.constructor cfg = Normal service ∧
     ApiService.name service = ApiServiceConfig.name cfg ∧
     ApiService.baseUrl service = default EmptyString (ApiServiceConfig.baseUrl cfg) ∧
     ApiService.config service = default ∅ (ApiServiceConfig.config cfg) ∧
     ApiService.interceptors service = ApiServiceConfig.interceptors cfg ∧
     ApiService.build service = ApiServiceConfig.endpoints cfg) ∧
  (∀ e, ApiService.constructor cfg ≠ Throw e).
Proof.
  split.
  - eexists. split; [reflexivity|]. by repeat split.
  - intros e. discriminate.
Qed.

(** C4, as the specification has it, fails: the record whose name is the
    empty string is accepted. *)
Lemma C4_empty_name_is_accepted :
  ApiServiceConfig.name Samples.unnamedConfig = EmptyString ∧
  ApiService.constructor Samples.unnamedConfig ≠ Throw InvalidConfigError ∧
  ∃ service,
    ApiService.constructor Samples.unnamedConfig = Normal service ∧
    ApiService.name service = EmptyString.
Proof.
  split; [reflexivity|]. split; [discriminate|].
  eexists; split; reflexivity.
Qed.

(** C5, as the code has it.  When the endpoint factory of a service throws
    [e], and the factories of the services enumerated before it returned,
    [createApiClient] throws [e] itself, not wrapped in anything, and the
    services enumerated after it are not processed. *)
Theorem C5_factory_error_propagates_unwrapped
    rootUrl init pre key service post e :
  ApiClientConfig.services init = pre ++ (key, service) :: post →
  Forall (λ ks, ∃ endpoints,
            ApiService.build ks.2 (handle_of rootUrl init ks.2) = Normal endpoints)
         pre →
  ApiService.build service (handle_of rootUrl init service) = Throw e →
  createApiClient rootUrl init = Throw e.
Proof.
  intros Hs Hpre Hb. unfold createApiClient; cbv zeta. rewrite Hs.
  apply assemble_loop_first_Throw.
  - eapply Forall_impl; [exact Hpre|]. intros [k s] [eps Heps]; simpl in *.
    eexists. apply assemble_service_Normal. by exists eps.
  - by apply assemble_service_Throw.
Qed.

Lemma C5_factory_error_propagates_unwrapped_witness :
  createApiClient Samples.rootUrl Samples.boomInit = Throw (Thrown (VStr "boom")).
Proof.
  apply (C5_factory_error_propagates_unwrapped Samples.rootUrl Samples.boomInit
           [("u", Samples.usersService)] "b" Samples.boomService
           [("o", Samples.ordersService)]).
  - reflexivity.
  - repeat constructor. by eexists.
  - reflexivity.
Defined.

(** C5, as the specification has it, fails: a factory that throws ["boom"]
    makes [createApiClient] throw ["boom"], not an [EndpointFactoryError]
    around it. *)
Lemma C5_boom_is_not_wrapped :
  ApiService.build Samples.boomService
    (handle_of Samples.rootUrl Samples.boomInit Samples.boomService)
  = Throw (Thrown (VStr "boom")) ∧
  createApiClient Samples.rootUrl Samples.boomInit = Throw (Thrown (VStr "boom")) ∧
  createApiClient Samples.rootUrl Samples.boomInit
  ≠ Throw (EndpointFactoryError (Thrown (VStr "boom"))) ∧
  (∀ cause, createApiClient Samples.rootUrl Samples.boomInit
            ≠ Throw (EndpointFactoryError cause)).
Proof.
  split; [reflexivity|].
  assert (createApiClient Samples.rootUrl Samples.boomInit
          = Throw (Thrown (VStr "boom"))) as Hrun by reflexivity.
  split; [exact Hrun|]. rewrite Hrun. split; [discriminate|].
  intros cause. discriminate.
Qed.

(** * Further properties of the factory *)

(** ** Clients as wholes *)

Lemma client_lookup_unfold (client : ApiClient) (n : string) :
  client !! n =
  match client_own client !! n with
  | Some sc => Some sc
  | None => if decide (n = "__proto__") then client_proto client else None
  end.
Proof. reflexivity. Qed.

(** Under every name but [__proto__] the entry is the own property. *)
Lemma client_lookup_own (client : ApiClient) (n : string) :
  n ≠ "__proto__" → client !! n = client_own client !! n.
Proof.
  intros Hn. unfold lookup at 1, client_lookup.
  destruct (client_own client !! n); [done|]. by destruct (decide (n = "__proto__")).
Qed.

(** An own property is an entry. *)
Lemma client_lookup_own_Some (client : ApiClient) (n : string) sc :
  client_own client !! n = Some sc → client !! n = Some sc.
Proof. intros H. unfold lookup, client_lookup. by rewrite H. Qed.

(** Without an own property [__proto__], the entry under that name is the
    prototype. *)
Lemma client_lookup_proto (client : ApiClient) :
  client_own client !! "__proto__" = None →
  client !! "__proto__" = client_proto client.
Proof.
  intros H. unfold lookup at 1, client_lookup. rewrite H.
  by destruct (decide ("__proto__" = "__proto__")).
Qed.

(** Two clients without an own property [__proto__] are equal when their
    entries are. *)
Lemma client_ext (client1 client2 : ApiClient) :
  client_own client1 !! "__proto__" = None →
  client_own client2 !! "__proto__" = None →
  (∀ n, client1 !! n = client2 !! n) →
  client1 = client2.
Proof.
  intros H1 H2 Heq.
  assert (client_proto client1 = client_proto client2) as Hp.
  { rewrite <- (client_lookup_proto _ H1), <- (client_lookup_proto _ H2). apply Heq. }
  assert (client_own client1 = client_own client2) as Ho.
  { apply map_eq; intros n. destruct (decide (n = "__proto__")) as [->|Hn].
    - by rewrite H1, H2.
    - rewrite <- !client_lookup_own by done. apply Heq. }
  destruct client1, client2; simpl in *. by subst.
Qed.

(** A client without an entry under [__proto__] has neither the own
    property nor a replaced prototype. *)
Lemma client_no_proto_entry (client : ApiClient) :
  client !! "__proto__" = None →
  client_own client !! "__proto__" = None ∧ client_proto client = None.
Proof.
  unfold lookup at 1, client_lookup.
  destruct (client_own client !! "__proto__"); [done|].
  destruct (decide ("__proto__" = "__proto__")); [|done]. by intros ->.
Qed.

Lemma client_union_mk o2 p2 o1 p1 :
  mkClient o2 p2 ∪ mkClient o1 p1 = mkClient (o2 ∪ o1) (p2 ∪ p1).
Proof. reflexivity. Qed.

(** Assigning to a client laid over one without an entry under
    [__proto__] is assigning to the client on top. *)
Lemma client_set_union (n : string) sc (client extra : ApiClient) :
  extra !! "__proto__" = None →
  client_set n sc (client ∪ extra) = client_set n sc client ∪ extra.
Proof.
  intros Hextra. apply client_no_proto_entry in Hextra as [Hown Hproto].
  destruct client as [o p], extra as [oe pe]; simpl in *; subst pe.
  assert (p ∪ None = p) as Hp by (by destruct p).
  assert ((o ∪ oe) !! "__proto__" = o !! "__proto__") as Hl
    by (rewrite lookup_union, Hown; by destruct (o !! "__proto__")).
  rewrite client_union_mk, Hp. unfold client_set, proto_shadowed; simpl.
  rewrite Hl.
  destruct (decide (n = "__proto__")); [destruct (_ || _)|];
    rewrite client_union_mk; simpl; rewrite ?insert_union_l, ?Hp; done.
Qed.

Lemma client_union_empty_l (client : ApiClient) : ∅ ∪ client = client.
Proof.
  destruct client as [o p].
  change (∅ : ApiClient) with (mkClient ∅ None).
  rewrite client_union_mk. f_equal.
  - apply (left_id_L ∅ (∪)).
  - by destruct p.
Qed.

(** The entries of a client without one of them. *)
Lemma client_lookup_delete (client : ApiClient) (n m : string) :
  client_own client !! "__proto__" = None →
  delete n client !! m = if decide (n = m) then None else client !! m.
Proof.
  intros Hown. destruct client as [o p]; simpl in *.
  unfold delete, client_delete; simpl.
  destruct (o !! n) as [old|] eqn:Hn.
  - assert (n ≠ "__proto__") as Hne by congruence.
    rewrite !client_lookup_unfold; simpl.
    destruct (decide (n = m)) as [<-|Hnm].
    + rewrite lookup_delete_eq. by destruct (decide (n = "__proto__")).
    + by rewrite lookup_delete_ne.
  - destruct (decide (n = "__proto__")) as [->|Hne].
    + rewrite !client_lookup_unfold; simpl.
      destruct (decide ("__proto__" = m)) as [<-|Hnm].
      * rewrite Hown. by destruct (decide ("__proto__" = "__proto__")).
      * destruct (o !! m); [done|].
        destruct (decide (m = "__proto__")); congruence.
    + destruct (decide (n = m)) as [<-|Hnm]; [|done].
      rewrite client_lookup_unfold; simpl. rewrite Hn.
      by destruct (decide (n = "__proto__")).
Qed.

Lemma client_own_delete (client : ApiClient) (n : string) :
  client_own client !! "__proto__" = None →
  client_own (delete n client) !! "__proto__" = None.
Proof.
  intros Hown. destruct client as [o p]; simpl in *.
  unfold delete, client_delete; simpl.
  destruct (o !! n) eqn:Hn; simpl.
  - rewrite lookup_delete. by destruct (decide (n = "__proto__")).
  - by destruct (decide (n = "__proto__")).
Qed.

(** ** The loop and its starting object *)

Section Composition.
Variable rootUrl : string.
Variable globalConfig : AxiosRequestConfig.
Variable globalIxs : option Interceptors.t.

Local Abbreviation handle := (instance_of rootUrl globalConfig globalIxs).
Local Abbreviation merged := (axiosConfig_of rootUrl globalConfig).
Local Abbreviation step := (assemble_service rootUrl globalConfig globalIxs).
Local Abbreviation loop := (assemble_loop rootUrl globalConfig globalIxs).

(** What the loop throws does not depend on the object it started on. *)
Lemma assemble_loop_Throw_any services client0 client1 e :
  loop services client0 = Throw e → loop services client1 = Throw e.
Proof.
  revert client0 client1; induction services as [|[k s] rest IH];
    intros client0 client1 H.
  - discriminate.
  - rewrite assemble_loop_cons in H |- *. destruct (step s); [eauto | done].
Qed.

(** The loop only adds to the object it started on, when that has no entry
    under [__proto__]. *)
Lemma assemble_loop_union services client0 client extra :
  extra !! "__proto__" = None →
  loop services client0 = Normal client →
  loop services (client0 ∪ extra) = Normal (client ∪ extra).
Proof.
  intros Hextra.
  revert client0; induction services as [|[k s] rest IH]; intros client0 H.
  - by injection H as <-.
  - rewrite assemble_loop_cons in H |- *. destruct (step s) as [sc|]; [|done].
    rewrite client_set_union by done. by apply IH.
Qed.

(** Started on an object without an entry under [__proto__], the loop
    yields what it yields from the empty object, laid over the starting
    object. *)
Lemma assemble_loop_from_empty services client0 client :
  client0 !! "__proto__" = None →
  loop services ∅ = Normal client →
  loop services client0 = Normal (client ∪ client0).
Proof.
  intros H0 H. apply (assemble_loop_union _ _ _ client0 H0) in H.
  by rewrite client_union_empty_l in H.
Qed.

(** A service name has an entry in the result. *)
Lemma assemble_loop_lookup_Some services client0 client (n : string) :
  loop services client0 = Normal client →
  n ∈ service_names services →
  is_Some (client !! n).
Proof.
  revert client0; induction services as [|[k s] rest IH]; intros client0 H Hn.
  - by apply elem_of_nil in Hn.
  - rewrite assemble_loop_cons in H. destruct (step s) as [sc|]; [|done].
    destruct (decide (n ∈ service_names rest)) as [Hrest|Hrest]; [by eapply IH|].
    unfold service_names in Hn; rewrite fmap_cons in Hn.
    apply elem_of_cons in Hn as [->|Hn]; [|done].
    rewrite (assemble_loop_lookup_other _ _ _ _ _ _ _ Hrest H).
    simpl. rewrite client_lookup_set_eq. by eexists.
Qed.

(** With pairwise distinct names, [__proto__] never becomes an own
    property. *)
Lemma assemble_loop_own_proto services client0 client :
  NoDup (service_names services) →
  client_own client0 !! "__proto__" = None →
  client_proto client0 = None ∨ "__proto__" ∉ service_names services →
  loop services client0 = Normal client →
  client_own client !! "__proto__" = None.
Proof.
  revert client0; induction services as [|[k s] rest IH];
    intros client0 Hnd Hown Hproto H.
  - by injection H as <-.
  - rewrite assemble_loop_cons in H. destruct (step s) as [sc|]; [|done].
    unfold service_names in Hnd, Hproto. rewrite fmap_cons in Hnd, Hproto.
    simpl in Hnd, Hproto. apply NoDup_cons in Hnd as [Hfresh Hnd].
    apply (IH _ Hnd) in H; [done| |].
    + unfold client_set. destruct (decide (ApiService.name s = "__proto__")).
      * destruct (proto_shadowed client0) eqn:Hsh; simpl; [|done].
        destruct Hproto as [Hp|Hp]; [|exfalso; apply Hp; rewrite e; by left].
        unfold proto_shadowed in Hsh. rewrite Hown, Hp in Hsh.
        by rewrite bool_decide_eq_false_2 in Hsh by (by intros [? ?]).
      * simpl. by rewrite lookup_insert_ne.
    + unfold client_set. destruct (decide (ApiService.name s = "__proto__")) as [Heq|Hne].
      * right. by rewrite <- Heq.
      * simpl. destruct Hproto as [Hp|Hp]; [by left|].
        right. by apply not_elem_of_cons in Hp as [_ ?].
Qed.

(** The keys of the enumeration play no part. *)
Lemma assemble_loop_keys services1 services2 client0 :
  services1.*2 = services2.*2 →
  loop services1 client0 = loop services2 client0.
Proof.
  revert services2 client0.
  induction services1 as [|[k1 s1] rest1 IH]; intros [|[k2 s2] rest2] client0 Heq;
    try discriminate; [done|].
  rewrite !fmap_cons in Heq. simpl in Heq. injection Heq as -> Heq.
  rewrite !assemble_loop_cons. destruct (step s2); [by apply IH | done].
Qed.

(** The loop returns exactly when every endpoint factory returns. *)
Lemma assemble_loop_Normal_iff services client0 :
  (∃ client, loop services client0 = Normal client) ↔
  Forall (λ ks, ∃ endpoints, ApiService.build ks.2 (handle ks.2) = Normal endpoints)
         services.
Proof.
  split.
  - intros [client H]. apply assemble_loop_Normal_all in H.
    eapply Forall_impl; [exact H|]. intros [k s] [sc Hsc]; simpl in *.
    apply assemble_service_Normal in Hsc as (eps & Hb & _). by exists eps.
  - apply assemble_loop_Normal_intro.
Qed.

(** Whatever the loop throws was thrown by the first endpoint factory that
    does not return. *)
Lemma assemble_loop_Throw_inv services client0 e :
  loop services client0 = Throw e →
  ∃ pre key service post,
    services = pre ++ (key, service) :: post ∧
    Forall (λ ks, ∃ endpoints, ApiService.build ks.2 (handle ks.2) = Normal endpoints)
           pre ∧
    ApiService.build service (handle service) = Throw e.
Proof.
  revert client0; induction services as [|[k s] rest IH]; intros client0 H.
  - discriminate.
  - rewrite assemble_loop_cons in H. destruct (step s) as [sc|e'] eqn:Hstep.
    + apply IH in H as (pre & key & service & post & -> & Hpre & Hb).
      exists ((k, s) :: pre), key, service, post. split; [done|]. split; [|done].
      constructor; [|done]. simpl.
      apply assemble_service_Normal in Hstep as (eps & ? & _). by exists eps.
    + injection H as ->. exists [], k, s, rest. split; [done|].
      split; [constructor|]. by apply assemble_service_Throw.
Qed.

(** With pairwise distinct names, each service has its own entry. *)
Lemma assemble_loop_entry_NoDup services client key service :
  NoDup (service_names services) →
  loop services ∅ = Normal client →
  (key, service) ∈ services →
  ∃ endpoints,
    ApiService.build service (handle service) = Normal endpoints ∧
    client !! ApiService.name service
    = Some (svcClient_of endpoints service (merged service) (handle service)).
Proof.
  intros Hnd H Hin. apply list_elem_of_split in Hin as (pre & post & ->).
  destruct (assemble_loop_service _ _ _ _ _ _ _ _ _ H) as (eps & Hb & Hentry).
  exists eps; split; [done|]. apply Hentry.
  unfold service_names in Hnd |- *. rewrite fmap_app, fmap_cons in Hnd.
  apply NoDup_app in Hnd as (_ & _ & Hnd). by apply NoDup_cons in Hnd as [? _].
Qed.

(** An entry of one result is an entry of another whose services have
    pairwise distinct names and include the one that gave the entry. *)
Lemma assemble_loop_lookup_transfer services1 services2 client1 client2
    (n : string) sc :
  NoDup (service_names services2) →
  (∀ key service, (key, service) ∈ services1 → ApiService.name service = n →
                  service ∈ services2.*2) →
  loop services1 ∅ = Normal client1 →
  loop services2 ∅ = Normal client2 →
  client1 !! n = Some sc →
  client2 !! n = Some sc.
Proof.
  intros Hnd Hsub H1 H2 Hsc.
  destruct (assemble_loop_lookup_inv _ _ _ _ _ _ _ _ H1 Hsc)
    as [[Hempty _]|(pre & key & service & post & eps & -> & <- & _ & Hb & ->)].
  { by rewrite client_lookup_empty in Hempty. }
  assert ((key, service) ∈ pre ++ (key, service) :: post) as Hin.
  { apply elem_of_app; right. by left. }
  apply Hsub in Hin; [|done].
  apply list_elem_of_fmap in Hin as ([k' s'] & Heq & Hin); simpl in Heq. subst s'.
  destruct (assemble_loop_entry_NoDup _ _ _ _ Hnd H2 Hin) as (eps' & Hb' & ->).
  rewrite Hb in Hb'. by injection Hb' as ->.
Qed.

(** With pairwise distinct names, two enumerations of the same services
    give the same client. *)
Lemma assemble_loop_same_services services1 services2 client1 client2 :
  NoDup (service_names services1) →
  NoDup (service_names services2) →
  (∀ service, service ∈ services1.*2 ↔ service ∈ services2.*2) →
  loop services1 ∅ = Normal client1 →
  loop services2 ∅ = Normal client2 →
  client1 = client2.
Proof.
  intros Hnd1 Hnd2 Hsame H1 H2. apply client_ext.
  - by apply (assemble_loop_own_proto services1 ∅); [| |left|].
  - by apply (assemble_loop_own_proto services2 ∅); [| |left|].
  - intros n. destruct (client1 !! n) as [sc|] eqn:E1.
    + symmetry. eapply (assemble_loop_lookup_transfer services1 services2); eauto.
      intros key service Hin _. apply Hsame, list_elem_of_fmap. by exists (key, service).
    + destruct (client2 !! n) as [sc|] eqn:E2; [|done].
      eapply (assemble_loop_lookup_transfer services2 services1) in E2; eauto;
        [congruence|].
      intros key service Hin _. apply Hsame, list_elem_of_fmap. by exists (key, service).
Qed.

End Composition.

(** Two loops whose iterations agree on every service agree. *)
Lemma assemble_loop_ext rootUrl1 globalConfig1 globalIxs1
    rootUrl2 globalConfig2 globalIxs2 services client0 :
  (∀ service, assemble_service rootUrl1 globalConfig1 globalIxs1 service
              = assemble_service rootUrl2 globalConfig2 globalIxs2 service) →
  assemble_loop rootUrl1 globalConfig1 globalIxs1 services client0
  = assemble_loop rootUrl2 globalConfig2 globalIxs2 services client0.
Proof.
  intros Hstep; revert client0.
  induction services as [|[k s] rest IH]; intros client0; [done|].
  rewrite !assemble_loop_cons, Hstep.
  destruct (assemble_service rootUrl2 globalConfig2 globalIxs2 s); [apply IH | done].
Qed.

(** A set of names has at most as many elements as the list it comes from,
    and as many exactly when no name is repeated. *)
Lemma size_names_le (names : list string) :
  size (list_to_set names : gset string) ≤ length names.
Proof.
  induction names as [|n names IH].
  - change (size (∅ : gset string) ≤ 0). by rewrite size_empty.
  - change (size ({[n]} ∪ list_to_set names : gset string) ≤ S (length names)).
    rewrite size_union_alt, size_singleton.
    assert (size (list_to_set names ∖ {[n]} : gset string)
            ≤ size (list_to_set names : gset string))
      by (apply subseteq_size; intros x Hx;
          by apply elem_of_difference in Hx as [? _]).
    lia.
Qed.

Lemma size_names_NoDup (names : list string) :
  size (list_to_set names : gset string) = length names ↔ NoDup names.
Proof.
  split; [|apply size_list_to_set].
  induction names as [|n names IH]; intros Hsize.
  - constructor.
  - change (size ({[n]} ∪ list_to_set names : gset string) = S (length names))
      in Hsize.
    pose proof (size_names_le names) as Hle.
    destruct (decide (n ∈ names)) as [Hin|Hnin].
    + assert ({[n]} ∪ list_to_set names = (list_to_set names : gset string)) as Heq
        by (apply subseteq_union_1_L; set_solver).
      rewrite Heq in Hsize. lia.
    + constructor; [done|]. apply IH.
      rewrite size_union in Hsize by set_solver.
      rewrite size_singleton in Hsize. lia.
Qed.

(** X1.  The keys under which the caller lists the services play no part:
    two calls whose enumerations hold the same services in the same order
    have the same outcome. *)
Theorem X1_service_keys_are_ignored
    rootUrl config interceptors services1 services2 :
  services1.*2 = services2.*2 →
  createApiClient rootUrl (ApiClientConfig.mk config interceptors services1)
  = createApiClient rootUrl (ApiClientConfig.mk config interceptors services2).
Proof. intros Heq. unfold createApiClient; simpl. by apply assemble_loop_keys. Qed.

Lemma X1_service_keys_are_ignored_witness :
  createApiClient Samples.rootUrl Samples.init
  = createApiClient Samples.rootUrl
      (ApiClientConfig.mk (Some Samples.globalConfig) (Some Samples.globalIxs)
         [("users", Samples.usersService); ("health", Samples.healthService);
          ("orders", Samples.ordersService)]).
Proof.
  apply (X1_service_keys_are_ignored Samples.rootUrl
           (Some Samples.globalConfig) (Some Samples.globalIxs)).
  reflexivity.
Defined.

(** X2.  The own properties of the returned client are named after
    descriptors, and every descriptor name but [__proto__] is the name of
    one; so there are never more own properties than services, and there
    are as many exactly when no two descriptors share a name and none is
    named [__proto__]. *)
Theorem X2_own_properties_and_descriptor_names rootUrl init client :
  createApiClient rootUrl init = Normal client →
  dom (client_own client)
    ⊆ list_to_set (service_names (ApiClientConfig.services init)) ∧
  dom (client_own client) ∖ {[ "__proto__" ]}
    = list_to_set (service_names (ApiClientConfig.services init))
      ∖ {[ "__proto__" ]} ∧
  size (client_own client) ≤ length (ApiClientConfig.services init) ∧
  (size (client_own client) = length (ApiClientConfig.services init)
   ↔ NoDup (service_names (ApiClientConfig.services init))
     ∧ "__proto__" ∉ service_names (ApiClientConfig.services init)).
Proof.
  intros H.
  set (names := service_names (ApiClientConfig.services init)).
  assert (length (ApiClientConfig.services init) = length names) as ->
    by (unfold names, service_names; by rewrite length_fmap).
  assert (dom (client_own client) ⊆ (list_to_set names : gset string)) as Hsub.
  { intros n Hn. apply elem_of_dom in Hn as [sc Hsc].
    apply client_lookup_own_Some in Hsc.
    destruct (createApiClient_entry _ _ _ _ _ H Hsc)
      as (key & service & eps & Hin & <- & _).
    apply elem_of_list_to_set, list_elem_of_fmap. by exists (key, service). }
  assert (∀ n, n ≠ "__proto__" → n ∈ names → n ∈ dom (client_own client)) as Hsup.
  { intros n Hn Hin. unfold createApiClient in H.
    apply elem_of_dom. rewrite <- client_lookup_own by done.
    by eapply assemble_loop_lookup_Some. }
  assert (size (dom (client_own client)) ≤ size (list_to_set names : gset string))
    as Hle by (by apply subseteq_size).
  pose proof (size_names_le names) as Hlen.
  split; [exact Hsub|]. split; [|split].
  - apply set_eq; intros n. rewrite !elem_of_difference, elem_of_singleton.
    rewrite elem_of_list_to_set. split; intros [Hn Hne]; split; try done.
    + apply Hsub in Hn. by apply elem_of_list_to_set in Hn.
    + by apply Hsup.
  - rewrite <- size_dom. lia.
  - rewrite <- size_dom. split.
    + intros Hsize.
      assert (NoDup names) as Hnd by (apply size_names_NoDup; lia).
      split; [done|]. intros Hproto.
      assert ("__proto__" ∉ dom (client_own client)) as Hno.
      { apply not_elem_of_dom. unfold createApiClient in H.
        eapply (assemble_loop_own_proto _ _ _ _ ∅);
          [exact Hnd | done | by left | exact H]. }
      assert (dom (client_own client)
              ⊆ (list_to_set names : gset string) ∖ {[ "__proto__" ]}) as Hsub'.
      { intros n Hn. apply elem_of_difference. split; [by apply Hsub|].
        rewrite elem_of_singleton. by intros ->. }
      apply subseteq_size in Hsub'.
      rewrite size_difference, size_singleton in Hsub'.
      * assert (size ({[ "__proto__" ]} : gset string)
                ≤ size (list_to_set names : gset string)) as Hone
          by (apply subseteq_size, singleton_subseteq_l;
              by apply elem_of_list_to_set).
        rewrite size_singleton in Hone. lia.
      * apply singleton_subseteq_l. by apply elem_of_list_to_set.
    + intros [Hnd Hproto].
      assert (dom (client_own client) = (list_to_set names : gset string)) as ->.
      { apply set_eq; intros n. split; [apply Hsub|].
        rewrite elem_of_list_to_set. intros Hn. apply Hsup; [|done].
        by intros ->. }
      by apply size_list_to_set.
Qed.

Lemma X2_own_properties_and_descriptor_names_witness :
  ∃ client,
    createApiClient Samples.rootUrl MoreSamples.duplicateInit = Normal client ∧
    size (client_own client) ≤ 2 ∧
    size (client_own client) ≠ 2.
Proof.
  destruct (createApiClient_returns Samples.rootUrl MoreSamples.duplicateInit)
    as [client Hrun]; [repeat constructor; by eexists|].
  exists client; split; [exact Hrun|].
  destruct (X2_own_properties_and_descriptor_names Samples.rootUrl
              MoreSamples.duplicateInit client Hrun) as (_ & _ & Hle & Hiff).
  split; [exact Hle|].
  intros Hsize. apply Hiff in Hsize as [Hnd _]. cbn in Hnd.
  apply NoDup_cons in Hnd as [Hnin _]. apply Hnin. by left.
Defined.

(** X3.  Every entry of the returned client is the service client composed
    for the last enumerated descriptor of that name: an earlier descriptor
    of the same name is overwritten, and no entry comes from anywhere else. *)
Theorem X3_entry_is_of_the_last_service_of_that_name
    rootUrl init client (n : string) sc :
  createApiClient rootUrl init = Normal client →
  client !! n = Some sc →
  ∃ pre key service post endpoints,
    ApiClientConfig.services init = pre ++ (key, service) :: post ∧
    ApiService.name service = n ∧
    (n ∉ service_names post) ∧
    ApiService.build service (handle_of rootUrl init service) = Normal endpoints ∧
    sc = svcClient_of endpoints service
           (effective_config rootUrl init service)
           (handle_of rootUrl init service).
Proof.
  unfold createApiClient, handle_of, effective_config. intros H Hn.
  destruct (assemble_loop_lookup_inv _ _ _ _ _ _ _ _ H Hn)
    as [[Hempty _]|Hlast]; [by rewrite client_lookup_empty in Hempty | exact Hlast].
Qed.

Lemma X3_entry_is_of_the_last_service_of_that_name_witness :
  ∃ client sc,
    createApiClient Samples.rootUrl MoreSamples.duplicateInit = Normal client ∧
    client !! "users" = Some sc ∧
    sc !! "baseUrl" = Some (VStr "/v2/users") ∧
    ∃ pre key service post,
      ApiClientConfig.services MoreSamples.duplicateInit
        = pre ++ (key, service) :: post ∧
      ApiService.name service = "users" ∧
      "users" ∉ service_names post.
Proof.
  destruct (createApiClient_returns Samples.rootUrl MoreSamples.duplicateInit)
    as [client Hrun]; [repeat constructor; by eexists|].
  destruct (createApiClient_service Samples.rootUrl MoreSamples.duplicateInit client
              [("a", Samples.usersService)] "b" MoreSamples.usersV2Service []
              eq_refl Hrun) as (eps0 & _ & Hentry).
  specialize (Hentry (not_elem_of_nil _)).
  destruct (X3_entry_is_of_the_last_service_of_that_name Samples.rootUrl
              MoreSamples.duplicateInit client "users" _ Hrun Hentry)
    as (pre & key & service & post & eps & Hs & Hname & Hlast & _).
  eexists client, _. split; [exact Hrun|]. split; [exact Hentry|].
  split; [apply svcClient_of_metadata|]. by exists pre, key, service, post.
Defined.

(** X4.  [createApiClient] returns a client exactly when the endpoint
    factory of every enumerated service returns on the handle made for it:
    nothing else in the factory can fail, and one failing endpoint factory is
    enough to make it fail. *)
Theorem X4_returns_iff_every_factory_returns rootUrl init :
  (∃ client, createApiClient rootUrl init = Normal client) ↔
  Forall (λ ks, ∃ endpoints,
            ApiService.build ks.2 (handle_of rootUrl init ks.2) = Normal endpoints)
         (ApiClientConfig.services init).
Proof. unfold createApiClient, handle_of. apply assemble_loop_Normal_iff. Qed.

(** X5.  Whatever [createApiClient] throws was thrown by the endpoint
    factory of an enumerated service, the first one that does not return:
    the factory throws nothing of its own. *)
Theorem X5_thrown_value_comes_from_a_factory rootUrl init e :
  createApiClient rootUrl init = Throw e →
  ∃ pre key service post,
    ApiClientConfig.services init = pre ++ (key, service) :: post ∧
    Forall (λ ks, ∃ endpoints,
              ApiService.build ks.2 (handle_of rootUrl init ks.2) = Normal endpoints)
           pre ∧
    ApiService.build service (handle_of rootUrl init service) = Throw e.
Proof. unfold createApiClient, handle_of. apply assemble_loop_Throw_inv. Qed.

Lemma X5_thrown_value_comes_from_a_factory_witness :
  ∃ pre key service post,
    ApiClientConfig.services Samples.boomInit = pre ++ (key, service) :: post ∧
    ApiService.build service (handle_of Samples.rootUrl Samples.boomInit service)
    = Throw (Thrown (VStr "boom")).
Proof.
  destruct (X5_thrown_value_comes_from_a_factory Samples.rootUrl Samples.boomInit
              (Thrown (VStr "boom")) eq_refl)
    as (pre & key & service & post & Hs & _ & Hb).
  by exists pre, key, service, post.
Defined.

(** X6.  With pairwise distinct names the order of enumeration does not
    show in the result: a call that returns a client returns the same client
    for every rearrangement of the services, under whatever keys. *)
Theorem X6_result_does_not_depend_on_order
    rootUrl config interceptors services1 services2 client :
  services1.*2 ≡ₚ services2.*2 →
  NoDup (service_names services1) →
  createApiClient rootUrl (ApiClientConfig.mk config interceptors services1)
  = Normal client →
  createApiClient rootUrl (ApiClientConfig.mk config interceptors services2)
  = Normal client.
Proof.
  unfold createApiClient; simpl. intros Hperm Hnd H1.
  assert (NoDup (service_names services2)) as Hnd2.
  { unfold service_names in *. rewrite list_fmap_compose in Hnd |- *.
    by rewrite <- Hperm. }
  assert (∃ client2,
            assemble_loop rootUrl (default ∅ config) interceptors services2 ∅
            = Normal client2) as [client2 H2].
  { apply assemble_loop_Normal_iff.
    assert (∃ c, assemble_loop rootUrl (default ∅ config) interceptors services1 ∅
                 = Normal c) as Hex by eauto.
    apply assemble_loop_Normal_iff in Hex.
    apply (Forall_fmap snd (λ s, ∃ endpoints,
             ApiService.build s (instance_of rootUrl (default ∅ config) interceptors s)
             = Normal endpoints)).
    rewrite <- Hperm. by apply Forall_fmap. }
  unfold globalConfig_of; simpl. rewrite H2. f_equal. symmetry.
  eapply assemble_loop_same_services; [exact Hnd | exact Hnd2 | | exact H1 | exact H2].
  intros service. by rewrite Hperm.
Qed.

Lemma X6_result_does_not_depend_on_order_witness :
  ∃ client,
    createApiClient Samples.rootUrl Samples.init = Normal client ∧
    createApiClient Samples.rootUrl
      (ApiClientConfig.mk (Some Samples.globalConfig) (Some Samples.globalIxs)
         MoreSamples.reorderedServices) = Normal client.
Proof.
  destruct (createApiClient_returns Samples.rootUrl Samples.init)
    as [client Hrun]; [repeat constructor; by eexists|].
  exists client; split; [exact Hrun|].
  apply (X6_result_does_not_depend_on_order Samples.rootUrl
           (Some Samples.globalConfig) (Some Samples.globalIxs)
           (ApiClientConfig.services Samples.init)).
  - cbn. rewrite (Permutation_swap Samples.usersService Samples.ordersService).
    apply Permutation_skip, Permutation_swap.
  - cbn. repeat constructor; rewrite ?not_elem_of_cons;
      repeat split; try discriminate; apply not_elem_of_nil.
  - exact Hrun.
Defined.

(** X7.  Assembling two collections in one call gives the clients of the
    two separate calls laid over each other, the entries of the second
    collection winning where a name occurs in both, provided that no
    descriptor of the first collection is named [__proto__]. *)
Theorem X7_assembly_of_a_concatenation
    rootUrl config interceptors services1 services2 client1 client2 :
  "__proto__" ∉ service_names services1 →
  createApiClient rootUrl (ApiClientConfig.mk config interceptors services1)
  = Normal client1 →
  createApiClient rootUrl (ApiClientConfig.mk config interceptors services2)
  = Normal client2 →
  createApiClient rootUrl
    (ApiClientConfig.mk config interceptors (services1 ++ services2))
  = Normal (client2 ∪ client1).
Proof.
  unfold createApiClient, globalConfig_of; simpl. intros Hproto H1 H2.
  rewrite assemble_loop_app, H1; simpl.
  apply assemble_loop_from_empty; [|done].
  rewrite (assemble_loop_lookup_other _ _ _ _ _ _ _ Hproto H1).
  apply client_lookup_empty.
Qed.

Lemma X7_assembly_of_a_concatenation_witness :
  ∃ client1 client2,
    createApiClient Samples.rootUrl
      (ApiClientConfig.mk None None [("a", Samples.usersService)]) = Normal client1 ∧
    createApiClient Samples.rootUrl
      (ApiClientConfig.mk None None [("b", MoreSamples.usersV2Service)])
    = Normal client2 ∧
    createApiClient Samples.rootUrl MoreSamples.duplicateInit
    = Normal (client2 ∪ client1).
Proof.
  destruct (createApiClient_returns Samples.rootUrl
              (ApiClientConfig.mk None None [("a", Samples.usersService)]))
    as [client1 Hrun1]; [repeat constructor; by eexists|].
  destruct (createApiClient_returns Samples.rootUrl
              (ApiClientConfig.mk None None [("b", MoreSamples.usersV2Service)]))
    as [client2 Hrun2]; [repeat constructor; by eexists|].
  exists client1, client2. split; [exact Hrun1|]. split; [exact Hrun2|].
  change MoreSamples.duplicateInit
    with (ApiClientConfig.mk None None
            ([("a", Samples.usersService)] ++ [("b", MoreSamples.usersV2Service)])).
  apply (X7_assembly_of_a_concatenation Samples.rootUrl None None
           [("a", Samples.usersService)] [("b", MoreSamples.usersV2Service)]
           client1 client2); [|exact Hrun1|exact Hrun2].
  cbn. rewrite not_elem_of_cons. split; [discriminate | apply not_elem_of_nil].
Defined.

(** The proviso of X7 is needed.  After a descriptor named [__proto__]
    whose service client has a property [__proto__] of its own, a second
    assignment to [__proto__] finds that data property on the prototype and
    becomes an own property of the client, which neither separate call
    has. *)
Lemma concatenation_after_proto_name :
  ∃ client1 client2 client,
    createApiClient Samples.rootUrl
      (ApiClientConfig.mk None None [("a", MoreSamples.shadowService)])
    = Normal client1 ∧
    createApiClient Samples.rootUrl
      (ApiClientConfig.mk None None [("b", Samples.protoService)])
    = Normal client2 ∧
    createApiClient Samples.rootUrl
      (ApiClientConfig.mk None None
         ([("a", MoreSamples.shadowService)] ++ [("b", Samples.protoService)]))
    = Normal client ∧
    client_own client1 !! "__proto__" = None ∧
    client_own client2 !! "__proto__" = None ∧
    is_Some (client_own client !! "__proto__") ∧
    client ≠ client2 ∪ client1.
Proof.
  eexists _, _, _. split; [reflexivity|]. split; [reflexivity|].
  split; [reflexivity|]. split; [reflexivity|]. split; [reflexivity|].
  split; [by eexists|].
  intros Heq.
  apply (f_equal (λ c, bool_decide (is_Some (client_own c !! "__proto__")))) in Heq.
  vm_compute in Heq. discriminate Heq.
Qed.

(** X8.  With pairwise distinct names the services do not affect each
    other: leaving one descriptor out of the collection removes its entry
    from the client and changes nothing else. *)
Theorem X8_leaving_a_service_out_removes_its_entry
    rootUrl config interceptors pre key service post client :
  NoDup (service_names (pre ++ (key, service) :: post)) →
  createApiClient rootUrl
    (ApiClientConfig.mk config interceptors (pre ++ (key, service) :: post))
  = Normal client →
  createApiClient rootUrl (ApiClientConfig.mk config interceptors (pre ++ post))
  = Normal (delete (ApiService.name service) client).
Proof.
  unfold createApiClient, globalConfig_of; simpl. intros Hnd H.
  set (g := default ∅ config) in *.
  assert (NoDup (service_names (pre ++ post))
          ∧ ApiService.name service ∉ service_names (pre ++ post)) as [Hnd' Hfresh].
  { unfold service_names in Hnd |- *. rewrite fmap_app, fmap_cons in Hnd.
    rewrite fmap_app. apply NoDup_app in Hnd as (Hpre & Hdisj & Hpost).
    apply NoDup_cons in Hpost as [Hfresh Hpost]. split.
    - apply NoDup_app. split; [done|]. split; [|done].
      intros n Hn Hn'. apply (Hdisj n Hn). by right.
    - intros Hin. apply elem_of_app in Hin as [Hin|Hin]; [|done].
      apply (Hdisj _ Hin). by left. }
  assert (∃ client', assemble_loop rootUrl g interceptors (pre ++ post) ∅
                     = Normal client') as [client' H'].
  { apply assemble_loop_Normal_iff.
    assert (∃ c, assemble_loop rootUrl g interceptors
                   (pre ++ (key, service) :: post) ∅ = Normal c) as Hex by eauto.
    apply assemble_loop_Normal_iff in Hex.
    apply Forall_app in Hex as [Hpre Hpost]. apply Forall_cons in Hpost as [_ Hpost].
    by apply Forall_app. }
  rewrite H'. f_equal.
  assert (client_own client !! "__proto__" = None) as Hown
    by (eapply (assemble_loop_own_proto _ _ _ _ ∅);
          [exact Hnd | done | by left | exact H]).
  apply client_ext.
  - eapply (assemble_loop_own_proto _ _ _ _ ∅);
      [exact Hnd' | done | by left | exact H'].
  - by apply client_own_delete.
  - intros m. rewrite client_lookup_delete by done.
    destruct (decide (ApiService.name service = m)) as [<-|Hm].
    + rewrite (assemble_loop_lookup_other _ _ _ _ _ _ _ Hfresh H').
      apply client_lookup_empty.
    + destruct (client' !! m) as [sc|] eqn:E'.
      * symmetry.
        eapply (assemble_loop_lookup_transfer _ _ _
                  (pre ++ post) (pre ++ (key, service) :: post)); eauto.
        intros k s Hin _. apply list_elem_of_fmap. exists (k, s). split; [done|].
        rewrite elem_of_app, elem_of_cons. apply elem_of_app in Hin. tauto.
      * destruct (client !! m) as [sc|] eqn:E; [|done].
        eapply (assemble_loop_lookup_transfer _ _ _
                  (pre ++ (key, service) :: post) (pre ++ post)) in E;
          eauto; [congruence|].
        intros k s Hin Hname. apply list_elem_of_fmap. exists (k, s). split; [done|].
        rewrite elem_of_app, elem_of_cons in Hin. rewrite elem_of_app.
        destruct Hin as [Hin|[[= -> ->]|Hin]]; [by left | done | by right].
Qed.

Lemma X8_leaving_a_service_out_removes_its_entry_witness :
  ∃ client,
    createApiClient Samples.rootUrl Samples.init = Normal client ∧
    createApiClient Samples.rootUrl
      (ApiClientConfig.mk (Some Samples.globalConfig) (Some Samples.globalIxs)
         [("u", Samples.usersService); ("o", Samples.ordersService)])
    = Normal (delete "health" client).
Proof.
  destruct (createApiClient_returns Samples.rootUrl Samples.init)
    as [client Hrun]; [repeat constructor; by eexists|].
  exists client; split; [exact Hrun|].
  change Samples.init
    with (ApiClientConfig.mk (Some Samples.globalConfig) (Some Samples.globalIxs)
            ([("u", Samples.usersService)]
             ++ ("h", Samples.healthService) :: [("o", Samples.ordersService)]))
    in Hrun.
  change [("u", Samples.usersService); ("o", Samples.ordersService)]
    with ([("u", Samples.usersService)] ++ [("o", Samples.ordersService)]).
  apply (X8_leaving_a_service_out_removes_its_entry Samples.rootUrl
           (Some Samples.globalConfig) (Some Samples.globalIxs)
           [("u", Samples.usersService)] "h" Samples.healthService
           [("o", Samples.ordersService)]).
  - cbn. repeat constructor; rewrite ?not_elem_of_cons;
      repeat split; try discriminate; apply not_elem_of_nil.
  - exact Hrun.
Defined.

(** The effective configuration does not depend on the root URL once the
    global configuration sets [baseURL]. *)
Lemma axiosConfig_of_pinned rootUrl1 rootUrl2 globalConfig service :
  is_Some (globalConfig !! "baseURL") →
  axiosConfig_of rootUrl1 globalConfig service
  = axiosConfig_of rootUrl2 globalConfig service.
Proof.
  intros [v Hv]. apply map_eq; intros k.
  rewrite !axiosConfig_of_lookup; simpl.
  destruct (ApiService.config service !! k); [done|].
  destruct (decide (k = "baseURL")) as [->|Hk].
  - by rewrite Hv.
  - destruct (globalConfig !! k); [done|]. by rewrite !lookup_singleton_ne.
Qed.

(** X9.  A service client has the properties of the endpoint object that
    its factory returned and the four metadata fields, and no others; so it
    has at least four properties. *)
Theorem X9_properties_of_a_service_client rootUrl init client (n : string) sc :
  createApiClient rootUrl init = Normal client →
  client !! n = Some sc →
  ∃ key service endpoints,
    (key, service) ∈ ApiClientConfig.services init ∧
    ApiService.name service = n ∧
    ApiService.build service (handle_of rootUrl init service) = Normal endpoints ∧
    dom sc = dom endpoints ∪ list_to_set metadata_fields ∧
    4 ≤ size sc.
Proof.
  intros H Hn.
  destruct (createApiClient_entry _ _ _ _ _ H Hn)
    as (key & service & eps & Hin & Hname & Hb & ->).
  exists key, service, eps. split; [done|]. split; [done|]. split; [done|].
  assert (dom (svcClient_of eps service (effective_config rootUrl init service)
                 (handle_of rootUrl init service))
          = dom eps ∪ list_to_set metadata_fields) as Hdom.
  { unfold svcClient_of, spread, metadata_fields.
    rewrite !dom_insert_L, (right_id_L ∅ (∪)). simpl.
    apply set_eq; intros k. rewrite !elem_of_union, !elem_of_singleton.
    rewrite elem_of_empty. tauto. }
  split; [exact Hdom|]. rewrite <- size_dom, Hdom.
  assert (size (list_to_set metadata_fields : gset string) = 4) as Hfour.
  { rewrite size_list_to_set; [done|]. unfold metadata_fields.
    repeat constructor; rewrite ?not_elem_of_cons;
      repeat split; try discriminate; apply not_elem_of_nil. }
  rewrite <- Hfour. apply subseteq_size. intros k Hk. apply elem_of_union; by right.
Qed.

Lemma X9_properties_of_a_service_client_witness :
  ∃ (client : ApiClient) (sc : ServiceClient) (endpoints : Obj),
    createApiClient Samples.rootUrl MoreSamples.duplicateInit = Normal client ∧
    client !! "users" = Some sc ∧
    dom sc = dom endpoints ∪ list_to_set metadata_fields ∧
    4 ≤ size sc.
Proof.
  destruct (createApiClient_returns Samples.rootUrl MoreSamples.duplicateInit)
    as [client Hrun]; [repeat constructor; by eexists|].
  destruct (createApiClient_service Samples.rootUrl MoreSamples.duplicateInit client
              [("a", Samples.usersService)] "b" MoreSamples.usersV2Service []
              eq_refl Hrun) as (eps0 & _ & Hentry).
  specialize (Hentry (not_elem_of_nil _)).
  destruct (X9_properties_of_a_service_client Samples.rootUrl
              MoreSamples.duplicateInit client "users" _ Hrun Hentry)
    as (key & service & eps & _ & _ & _ & Hdom & Hsize).
  eexists client, _, eps. split; [exact Hrun|]. split; [exact Hentry|].
  split; [exact Hdom | exact Hsize].
Defined.

(** X10.  When the global configuration sets [baseURL], the root URL given
    to [createApiClient] has no effect at all: any two root URLs give the
    same outcome. *)
Theorem X10_root_url_is_dead_when_global_config_sets_baseURL
    rootUrl1 rootUrl2 init :
  is_Some (globalConfig_of init !! "baseURL") →
  createApiClient rootUrl1 init = createApiClient rootUrl2 init.
Proof.
  intros Hpinned. unfold createApiClient; cbv zeta.
  apply assemble_loop_ext. intros service. unfold assemble_service.
  by rewrite (axiosConfig_of_pinned rootUrl1 rootUrl2).
Qed.

Lemma X10_root_url_is_dead_when_global_config_sets_baseURL_witness :
  createApiClient Samples.rootUrl MoreSamples.pinnedInit
  = createApiClient Samples.slashRootUrl MoreSamples.pinnedInit.
Proof.
  apply X10_root_url_is_dead_when_global_config_sets_baseURL.
  by eexists.
Defined.

(** X11.  An empty global configuration object and a global interceptor
    object with neither [request] nor [response] are as good as absent: the
    outcome is that of a call without [config] and [interceptors]. *)
Theorem X11_empty_global_settings_are_as_absent rootUrl services :
  createApiClient rootUrl
    (ApiClientConfig.mk (Some ∅) (Some (Interceptors.mk None None)) services)
  = createApiClient rootUrl (ApiClientConfig.mk None None services).
Proof.
  unfold createApiClient, globalConfig_of; simpl.
  by apply assemble_loop_ext.
Qed.

(** X12.  Constructing a descriptor never runs its endpoint factory: a
    descriptor whose factory throws is constructed all the same, and the
    failure shows only when [createApiClient] assembles it. *)
Theorem X12_factory_failure_is_deferred_to_assembly
    (cfg : ApiServiceConfig.t) e rootUrl config interceptors key :
  (∀ instance, ApiServiceConfig.endpoints cfg instance = Throw e) →
  ∃ service,
    ApiService.constructor cfg = Normal service ∧
    createApiClient rootUrl
      (ApiClientConfig.mk config interceptors [(key, service)]) = Throw e.
Proof.
  intros Hthrows. eexists. split; [reflexivity|].
  unfold createApiClient; cbv zeta. cbn [ApiClientConfig.services].
  rewrite assemble_loop_cons.
  match goal with |- context [assemble_service ?r ?g ?i ?s] =>
    assert (assemble_service r g i s = Throw e) as ->
      by (apply assemble_service_Throw; apply Hthrows)
  end.
  reflexivity.
Qed.

Lemma X12_factory_failure_is_deferred_to_assembly_witness :
  ∃ service,
    ApiService.constructor
      (ApiServiceConfig.mk "boom" (Some "/boom") None None
         (λ _, Throw (Thrown (VStr "boom")))) = Normal service ∧
    createApiClient Samples.rootUrl
      (ApiClientConfig.mk None None [("b", service)]) = Throw (Thrown (VStr "boom")).
Proof.
  apply (X12_factory_failure_is_deferred_to_assembly
           (ApiServiceConfig.mk "boom" (Some "/boom") None None
              (λ _, Throw (Thrown (VStr "boom"))))
           (Thrown (VStr "boom")) Samples.rootUrl None None "b").
  reflexivity.
Defined.

(** X13.  When the descriptor names are pairwise distinct and none is
    [__proto__], the returned client has exactly one own property per
    service, named after the descriptor and not after the key of the
    caller: its own property names are the descriptor names, there are as
    many as services, each holds the client composed for the service of that
    name, its prototype is untouched, and no other name has an entry. *)
Theorem X13_one_own_property_per_service rootUrl init client :
  NoDup (service_names (ApiClientConfig.services init)) →
  "__proto__" ∉ service_names (ApiClientConfig.services init) →
  createApiClient rootUrl init = Normal client →
  dom (client_own client)
    = list_to_set (service_names (ApiClientConfig.services init)) ∧
  size (client_own client) = length (ApiClientConfig.services init) ∧
  client_proto client = None ∧
  (∀ key service, (key, service) ∈ ApiClientConfig.services init →
     ∃ endpoints,
       ApiService.build service (handle_of rootUrl init service) = Normal endpoints ∧
       client_own client !! ApiService.name service
       = Some (svcClient_of endpoints service
                 (effective_config rootUrl init service)
                 (handle_of rootUrl init service))) ∧
  (∀ key, key ∉ service_names (ApiClientConfig.services init) → client !! key = None).
Proof.
  intros Hnd Hproto H.
  assert (∀ key, key ∉ service_names (ApiClientConfig.services init) →
                 client !! key = None) as Hother.
  { intros key Hkey. unfold createApiClient in H.
    rewrite (assemble_loop_lookup_other _ _ _ _ _ _ _ Hkey H).
    apply client_lookup_empty. }
  destruct (client_no_proto_entry _ (Hother _ Hproto)) as [Hown Hp].
  assert (∀ key service, (key, service) ∈ ApiClientConfig.services init →
            ∃ endpoints,
              ApiService.build service (handle_of rootUrl init service)
              = Normal endpoints ∧
              client_own client !! ApiService.name service
              = Some (svcClient_of endpoints service
                        (effective_config rootUrl init service)
                        (handle_of rootUrl init service))) as Hentries.
  { intros key service Hin. unfold createApiClient in H.
    destruct (assemble_loop_entry_NoDup _ _ _ _ _ _ _ Hnd H Hin) as (eps & Hb & He).
    exists eps. split; [exact Hb|]. rewrite <- client_lookup_own; [exact He|].
    intros Heq. apply Hproto. rewrite <- Heq.
    apply list_elem_of_fmap. by exists (key, service). }
  assert (dom (client_own client)
          = list_to_set (service_names (ApiClientConfig.services init))) as Hdom.
  { apply set_eq; intros n. rewrite elem_of_list_to_set, elem_of_dom. split.
    - intros [sc Hsc]. destruct (decide (n ∈ service_names (ApiClientConfig.services init)))
        as [|Hn]; [done|].
      apply client_lookup_own_Some in Hsc. by rewrite (Hother _ Hn) in Hsc.
    - intros Hn. apply list_elem_of_fmap in Hn as ([k s] & -> & Hin).
      destruct (Hentries _ _ Hin) as (eps & _ & He). by eexists. }
  split; [exact Hdom|]. split; [|done].
  rewrite <- size_dom, Hdom, size_list_to_set by done.
  unfold service_names. apply length_fmap.
Qed.

Lemma X13_one_own_property_per_service_witness :
  ∃ client,
    createApiClient Samples.rootUrl Samples.init = Normal client ∧
    dom (client_own client) = list_to_set ["users"; "health"; "orders"] ∧
    size (client_own client) = 3 ∧
    client !! "u" = None.
Proof.
  destruct (createApiClient_returns Samples.rootUrl Samples.init)
    as [client Hrun]; [repeat constructor; by eexists|].
  exists client; split; [exact Hrun|].
  destruct (X13_one_own_property_per_service Samples.rootUrl Samples.init client)
    as (Hdom & Hsize & _ & _ & Hkeys); [| |exact Hrun|].
  - cbn. repeat constructor; rewrite ?not_elem_of_cons;
      repeat split; try discriminate; apply not_elem_of_nil.
  - cbn. rewrite !not_elem_of_cons. repeat split; try discriminate.
    apply not_elem_of_nil.
  - split; [exact Hdom|]. split; [exact Hsize|].
    apply Hkeys. cbn. rewrite !not_elem_of_cons.
    repeat split; try discriminate. apply not_elem_of_nil.
Defined.
